(** * LiveClient: the real-time audio session manager of peacemap

    A shallow embedding of [LiveClient] (the voice pipeline of the
    dashboard): the audio codec ([createBlob], [encode], [decode],
    [decodeAudioData]), the playback scheduler ([handleMessage],
    [stopAudioQueue]) and the session state machine ([updateState],
    [connect], [disconnect]).

    Conventions.
    - A [Uint8Array] is a [list byte]; an [Int16Array] is a list of [Z] in
      [-32768, 32767]; a JavaScript binary string is the list of its code
      units.
    - Times on the audio timeline and audio samples are rationals.  Every
      sample the codec handles is a 32-bit float, hence a dyadic rational,
      and scaling by 32768 = 2^15 is exact on those; the one rounding the
      program performs on times ([nextStartTime += duration]) is idealised.
    - The browser (audio contexts, buffer source nodes, the observer, the
      requests sent to the outside) is an explicit [Browser] record threaded
      with the [LiveClient] fields through a small state-and-exception
      monad. *)

From Stdlib Require Import ZArith QArith Qround Qabs Qminmax Lqa Lia Bool List.
From Stdlib Require Import Strings.Ascii Strings.String Strings.Byte.
From stdpp Require Import base option list.
Import ListNotations.

Local Open Scope Z_scope.

(** ** Exceptions and results *)

(** An error raised by the environment, with its [name] and [message]. *)
Record DOMError : Type := mkDOMError { errName : string; errMessage : string }.

Inductive Exn : Type :=
  | InvalidCharacterError
  | RangeError
  | NotSupportedError
  | InvalidStateError
  | DOMException (e : DOMError).

Inductive Result (A : Type) : Type :=
  | Ok (a : A)
  | Throw (e : Exn).
Arguments Ok {A} a.
Arguments Throw {A} e.

Definition bindR {A B} (r : Result A) (k : A -> Result B) : Result B :=
  match r with
  | Ok a => k a
  | Throw e => Throw e
  end.

(** ** Typed arrays *)

Definition Z_of_byte (b : byte) : Z := Z.of_N (Byte.to_N b).

(** Storing a number into a [Uint8Array] keeps it modulo 256. *)
Definition byte_of_Z (z : Z) : byte :=
  match Byte.of_N (Z.to_N (z mod 256)) with
  | Some b => b
  | None => x00
  end.

(** [ToInt16] of a number: truncate toward zero, reduce modulo 2^16 and read
    the result as a two's complement value. *)
Definition Qtrunc (x : Q) : Z :=
  if Qle_bool 0 x then Qfloor x else Qceiling x.

Definition wrap16 (n : Z) : Z :=
  let m := n mod 65536 in
  if 32768 <=? m then m - 65536 else m.

Definition ToInt16 (x : Q) : Z := wrap16 (Qtrunc x).

(** The byte view of an [Int16Array] buffer (little endian) and back. *)
Definition int16_bytes (v : Z) : list byte :=
  [byte_of_Z v; byte_of_Z (v / 256)].

Definition bytes_of_int16s (l : list Z) : list byte :=
  flat_map int16_bytes l.

Fixpoint int16s_of_bytes (l : list byte) : list Z :=
  match l with
  | lo :: hi :: rest =>
      wrap16 (Z_of_byte lo + 256 * Z_of_byte hi) :: int16s_of_bytes rest
  | _ => []
  end.

(** ** The platform's base64 ([btoa], [atob])

    [btoa] and [atob] are browser built-ins; they are modelled after the
    HTML standard: [btoa] rejects code units above 255 and emits padded
    base64, [atob] is the forgiving decoder (white space removed, padding
    optional, a length of 1 modulo 4 or a foreign character rejected). *)

Definition b64_char (n : Z) : ascii :=
  ascii_of_N (Z.to_N
    (if n <? 26 then n + 65
     else if n <? 52 then n + 71
     else if n <? 62 then n - 4
     else if n =? 62 then 43
     else 47)).

Definition b64_index (c : ascii) : option Z :=
  let k := Z.of_N (N_of_ascii c) in
  if (65 <=? k) && (k <=? 90) then Some (k - 65)
  else if (97 <=? k) && (k <=? 122) then Some (k - 71)
  else if (48 <=? k) && (k <=? 57) then Some (k + 4)
  else if k =? 43 then Some 62
  else if k =? 47 then Some 63
  else None.

Definition pad_char : ascii := "="%char.

Fixpoint b64_encode (l : list Z) : list ascii :=
  match l with
  | [] => []
  | [b0] =>
      [b64_char (b0 / 4); b64_char (b0 mod 4 * 16); pad_char; pad_char]
  | [b0; b1] =>
      [b64_char (b0 / 4); b64_char (b0 mod 4 * 16 + b1 / 16);
       b64_char (b1 mod 16 * 4); pad_char]
  | b0 :: b1 :: b2 :: rest =>
      b64_char (b0 / 4) :: b64_char (b0 mod 4 * 16 + b1 / 16)
      :: b64_char (b1 mod 16 * 4 + b2 / 64) :: b64_char (b2 mod 64)
      :: b64_encode rest
  end.

Definition btoa (binary : list Z) : Result string :=
  if forallb (fun c => c <=? 255) binary
  then Ok (string_of_list_ascii (b64_encode binary))
  else Throw InvalidCharacterError.

Definition is_ascii_whitespace (c : ascii) : bool :=
  match N_of_ascii c with
  | 9%N | 10%N | 12%N | 13%N | 32%N => true
  | _ => false
  end.

Definition is_pad (c : ascii) : bool := Ascii.eqb c pad_char.

(** Removes one or two trailing [=]. *)
Fixpoint drop_trailing_pad (data : list ascii) : list ascii :=
  match data with
  | [] => []
  | c :: rest =>
      match rest with
      | [] => if is_pad c then [] else [c]
      | [d] => if is_pad c && is_pad d then [] else c :: drop_trailing_pad rest
      | _ => c :: drop_trailing_pad rest
      end
  end.

Definition strip_padding (data : list ascii) : list ascii :=
  if (length data mod 4 =? 0)%nat then drop_trailing_pad data else data.

Fixpoint sextets (data : list ascii) : option (list Z) :=
  match data with
  | [] => Some []
  | c :: rest =>
      match b64_index c, sextets rest with
      | Some n, Some l => Some (n :: l)
      | _, _ => None
      end
  end.

Fixpoint b64_decode (l : list Z) : list Z :=
  match l with
  | s0 :: s1 :: s2 :: s3 :: rest =>
      (s0 * 4 + s1 / 16) :: (s1 mod 16 * 16 + s2 / 4) :: (s2 mod 4 * 64 + s3)
      :: b64_decode rest
  | [s0; s1; s2] => [s0 * 4 + s1 / 16; s1 mod 16 * 16 + s2 / 4]
  | [s0; s1] => [s0 * 4 + s1 / 16]
  | _ => []
  end.

Definition atob (s : string) : Result (list Z) :=
  let data :=
    filter (fun c => is_ascii_whitespace c = false) (list_ascii_of_string s) in
  let data := strip_padding data in
  if (length data mod 4 =? 1)%nat then Throw InvalidCharacterError
  else match sextets data with
       | Some l => Ok (b64_decode l)
       | None => Throw InvalidCharacterError
       end.

(** ** AudioCodec: the [LiveClient] audio utilities *)

(** [String.fromCharCode]: the argument is taken modulo 2^16. *)
Definition fromCharCode (n : Z) : Z := n mod 65536.

Definition encode (bytes : list byte) : Result string :=
  btoa (map (fun b => fromCharCode (Z_of_byte b)) bytes).

Definition decode (base64 : string) : Result (list byte) :=
  bindR (atob base64) (fun binaryString => Ok (map byte_of_Z binaryString)).

Record Blob : Type := mkBlob { blob_data : string; mimeType : string }.

Definition createBlob (data : list Q) : Result Blob :=
  let int16 := map (fun x => ToInt16 (x * 32768)) data in
  bindR (encode (bytes_of_int16s int16)) (fun s =>
  Ok (mkBlob s "audio/pcm;rate=16000")).

Record AudioBuffer : Type := mkAudioBuffer {
  numberOfChannels : Z;
  frames : Z;
  sampleRate : Z;
  channelData : list (list Q)
}.

Definition duration (b : AudioBuffer) : Q :=
  (inject_Z (frames b) / inject_Z (sampleRate b))%Q.

(** [ctx.createBuffer]: a channel count, a length or a rate that is not
    positive is refused. *)
Definition createBuffer (numChannels frameCount rate : Z) : Result unit :=
  if (numChannels <=? 0) || (frameCount <=? 0) || (rate <=? 0)
  then Throw NotSupportedError else Ok tt.

Definition decodeAudioData (data : list byte) (rate numChannels : Z)
  : Result AudioBuffer :=
  if Nat.odd (length data) then Throw RangeError else
  let dataInt16 := int16s_of_bytes data in
  let frameCount := Z.of_nat (length dataInt16) / numChannels in
  bindR (createBuffer numChannels frameCount rate) (fun _ =>
  Ok (mkAudioBuffer numChannels frameCount rate
        (map (fun channel =>
                map (fun i =>
                       (inject_Z (nth (i * Z.to_nat numChannels + channel)%nat
                                      dataInt16 0%Z) / 32768)%Q)
                    (seq 0 (Z.to_nat frameCount)))
             (seq 0 (Z.to_nat numChannels))))).


(** The sextets of a byte sequence, before the alphabet and the padding are
    applied; [b64_encode] is these through [b64_char], padded to a multiple
    of four. *)
Fixpoint b64_sextets (l : list Z) : list Z :=
  match l with
  | [] => []
  | [b0] => [b0 / 4; b0 mod 4 * 16]
  | [b0; b1] => [b0 / 4; b0 mod 4 * 16 + b1 / 16; b1 mod 16 * 4]
  | b0 :: b1 :: b2 :: rest =>
      b0 / 4 :: (b0 mod 4 * 16 + b1 / 16) :: (b1 mod 16 * 4 + b2 / 64)
      :: b2 mod 64 :: b64_sextets rest
  end.

Definition is_octet (b : Z) : Prop := 0 <= b < 256.
Definition is_sextet (s : Z) : Prop := 0 <= s < 64.

(** One sample through the outbound conversion of [createBlob]
    ([int16[i] = data[i] * 32768]) and the inbound one of [decodeAudioData]
    ([dataInt16[i] / 32768.0]). *)
Definition quantize (x : Q) : Q :=
  (inject_Z (ToInt16 (x * 32768)) / 32768)%Q.

(** A block of samples sent through [createBlob], the transport and back
    through [decode] and [decodeAudioData]. *)
Definition loopback (data : list Q) (rate : Z) : Result AudioBuffer :=
  bindR (createBlob data) (fun blob =>
  bindR (decode (blob_data blob)) (fun bytes =>
  decodeAudioData bytes rate 1)).

(** ** Session state *)

Record LiveClientState : Type := mkState {
  isConnected : bool;
  isSpeaking : bool;
  error : option string
}.

(** [Partial<LiveClientState>]: every key may be absent; a present [error]
    key holds a string or [null]. *)
Record PartialState : Type := mkPartial {
  set_isConnected : option bool;
  set_isSpeaking : option bool;
  set_error : option (option string)
}.

Definition or_keep {A} (new : option A) (old : A) : A :=
  match new with
  | Some v => v
  | None => old
  end.

(** The object spread [{ ...state, ...partial }]. *)
Definition spread (state : LiveClientState) (partial : PartialState)
  : LiveClientState :=
  mkState (or_keep (set_isConnected partial) (isConnected state))
          (or_keep (set_isSpeaking partial) (isSpeaking state))
          (or_keep (set_error partial) (error state)).

(** ** Inbound messages *)

Record InlineData : Type := mkInlineData { data : option string }.
Record Part : Type := mkPart { inlineData : option InlineData }.
Record ModelTurn : Type := mkModelTurn { parts : option (list Part) }.
Record ServerContent : Type := mkServerContent {
  modelTurn : option ModelTurn;
  interrupted : option bool
}.
Record LiveServerMessage : Type := mkMessage {
  serverContent : option ServerContent
}.

(** Optional chaining, [o?.f]. *)
Definition chain {A B} (o : option A) (f : A -> option B) : option B :=
  match o with
  | Some a => f a
  | None => None
  end.
Infix "?>" := chain (at level 50, left associativity).

(** [message.serverContent?.modelTurn?.parts?.[0]?.inlineData?.data] *)
Definition audioString_of (message : LiveServerMessage) : option string :=
  serverContent message ?> modelTurn ?> parts ?> head ?> inlineData ?> data.

(** [message.serverContent?.interrupted], as a condition. *)
Definition interrupted_of (message : LiveServerMessage) : bool :=
  match serverContent message ?> interrupted with
  | Some true => true
  | _ => false
  end.

(** A string is truthy when it is not empty. *)
Definition truthy (s : string) : bool :=
  match s with
  | EmptyString => false
  | String _ _ => true
  end.

(** ** The browser *)

Record AudioContext : Type := mkAudioContext {
  contextRate : Z;
  currentTime : Q;
  closed : bool
}.

(** The life of an [AudioBufferSourceNode]. *)
Inductive Playback : Type :=
  | Created
  | Scheduled
  | Stopped
  | Finished.

Record SourceNode : Type := mkSourceNode {
  buffer : option AudioBuffer;
  startAt : Q;
  playback : Playback
}.

(** A node of the capture graph (the media stream source, the script
    processor): the context it lives in and whether its output is
    connected. *)
Record CaptureNode : Type := mkCaptureNode {
  nodeContext : nat;
  connected : bool
}.

Inductive Request : Type :=
  | GetUserMedia
  | LiveConnect (stream : nat)
  | SendRealtimeInput (media : Blob).

Record Browser : Type := mkBrowser {
  contexts : list AudioContext;
  sources : list SourceNode;
  captureNodes : list CaptureNode;
  (** what the environment answers to [connect]: whether [AudioContext]
      can be constructed, and the outcome of [getUserMedia] *)
  audioSupport : option DOMError;
  microphone : DOMError + nat;
  (** whether [stop] on a source that is no longer playing raises, as
      older engines do *)
  strictStop : bool;
  (** the snapshots handed to [onStateChange], oldest first *)
  notified : list LiveClientState;
  (** the requests issued to the outside, oldest first *)
  requests : list Request
}.

(** ** The client *)

Record LiveClient : Type := mkClient {
  inputContext : option nat;
  outputContext : option nat;
  inputSource : option nat;
  processor : option nat;
  nextStartTime : Q;
  audioQueue : list nat;
  currentState : LiveClientState
}.

Definition new_client : LiveClient :=
  mkClient None None None None 0%Q [] (mkState false false None).

Record World : Type := mkWorld { client : LiveClient; browser : Browser }.

Definition on_client (f : LiveClient -> LiveClient) (w : World) : World :=
  mkWorld (f (client w)) (browser w).
Definition on_browser (f : Browser -> Browser) (w : World) : World :=
  mkWorld (client w) (f (browser w)).

Definition with_inputContext (v : option nat) (c : LiveClient) : LiveClient :=
  mkClient v (outputContext c) (inputSource c) (processor c)
           (nextStartTime c) (audioQueue c) (currentState c).
Definition with_outputContext (v : option nat) (c : LiveClient) : LiveClient :=
  mkClient (inputContext c) v (inputSource c) (processor c)
           (nextStartTime c) (audioQueue c) (currentState c).
Definition with_inputSource (v : option nat) (c : LiveClient) : LiveClient :=
  mkClient (inputContext c) (outputContext c) v (processor c)
           (nextStartTime c) (audioQueue c) (currentState c).
Definition with_processor (v : option nat) (c : LiveClient) : LiveClient :=
  mkClient (inputContext c) (outputContext c) (inputSource c) v
           (nextStartTime c) (audioQueue c) (currentState c).
Definition with_nextStartTime (v : Q) (c : LiveClient) : LiveClient :=
  mkClient (inputContext c) (outputContext c) (inputSource c) (processor c)
           v (audioQueue c) (currentState c).
Definition with_audioQueue (v : list nat) (c : LiveClient) : LiveClient :=
  mkClient (inputContext c) (outputContext c) (inputSource c) (processor c)
           (nextStartTime c) v (currentState c).
Definition with_currentState (v : LiveClientState) (c : LiveClient) : LiveClient :=
  mkClient (inputContext c) (outputContext c) (inputSource c) (processor c)
           (nextStartTime c) (audioQueue c) v.

Definition with_contexts (v : list AudioContext) (b : Browser) : Browser :=
  mkBrowser v (sources b) (captureNodes b) (audioSupport b) (microphone b)
            (strictStop b) (notified b) (requests b).
Definition with_sources (v : list SourceNode) (b : Browser) : Browser :=
  mkBrowser (contexts b) v (captureNodes b) (audioSupport b) (microphone b)
            (strictStop b) (notified b) (requests b).
Definition with_captureNodes (v : list CaptureNode) (b : Browser) : Browser :=
  mkBrowser (contexts b) (sources b) v (audioSupport b) (microphone b)
            (strictStop b) (notified b) (requests b).
Definition with_notified (v : list LiveClientState) (b : Browser) : Browser :=
  mkBrowser (contexts b) (sources b) (captureNodes b) (audioSupport b)
            (microphone b) (strictStop b) v (requests b).
Definition with_requests (v : list Request) (b : Browser) : Browser :=
  mkBrowser (contexts b) (sources b) (captureNodes b) (audioSupport b)
            (microphone b) (strictStop b) (notified b) v.

(** ** A state and exception monad

    A computation transforms the world and either returns or throws; what
    it did before throwing stays done. *)

Definition M (A : Type) : Type := World -> Result A * World.

Definition ret {A} (a : A) : M A := fun w => (Ok a, w).

Definition bind {A B} (m : M A) (k : A -> M B) : M B := fun w =>
  match m w with
  | (Ok a, w') => k a w'
  | (Throw e, w') => (Throw e, w')
  end.

Definition throw {A} (e : Exn) : M A := fun w => (Throw e, w).

Definition try_catch {A} (m : M A) (handler : Exn -> M A) : M A := fun w =>
  match m w with
  | (Ok a, w') => (Ok a, w')
  | (Throw e, w') => handler e w'
  end.

Definition gets {A} (f : World -> A) : M A := fun w => (Ok (f w), w).
Definition modify (f : World -> World) : M unit := fun w => (Ok tt, f w).
Definition liftR {A} (r : Result A) : M A := fun w => (r, w).

Notation "'let*' x ':=' m 'in' k" := (bind m (fun x => k))
  (at level 10, x name, m at level 100, k at level 200).
Notation "m '>>' k" := (bind m (fun _ => k))
  (at level 100, k at level 200, right associativity).

Definition when_some {A} (o : option A) (f : A -> M unit) : M unit :=
  match o with
  | Some a => f a
  | None => ret tt
  end.

Fixpoint forEach {A} (l : list A) (f : A -> M unit) : M unit :=
  match l with
  | [] => ret tt
  | x :: rest => f x >> forEach rest f
  end.

(** ** Browser operations *)

Definition update_at {A} (i : nat) (f : A -> A) (l : list A) : list A :=
  match l !! i with
  | Some x => <[i := f x]> l
  | None => l
  end.

(** [ctx.currentTime] *)
Definition timeOf (b : Browser) (ctx : nat) : Q :=
  match contexts b !! ctx with
  | Some c => currentTime c
  | None => 0%Q
  end.

Definition currentTimeOf (ctx : nat) : M Q :=
  gets (fun w => timeOf (browser w) ctx).

(** [new AudioContext({ sampleRate })] *)
Definition newAudioContext (rate : Z) : M nat := fun w =>
  match audioSupport (browser w) with
  | Some e => (Throw (DOMException e), w)
  | None =>
      (Ok (length (contexts (browser w))),
       on_browser (fun b =>
         with_contexts (contexts b ++ [mkAudioContext rate 0%Q false]) b) w)
  end.

(** [ctx.close()] *)
Definition closeContext (ctx : nat) : M unit :=
  modify (on_browser (fun b =>
    with_contexts
      (update_at ctx (fun c => mkAudioContext (contextRate c) (currentTime c) true)
                 (contexts b)) b)).

(** [navigator.mediaDevices.getUserMedia({ audio: true })], awaited *)
Definition getUserMedia : M nat := fun w =>
  let w' := on_browser (fun b => with_requests (requests b ++ [GetUserMedia]) b) w in
  (match microphone (browser w) with
   | inl e => Throw (DOMException e)
   | inr stream => Ok stream
   end, w').

(** [ai.live.connect(...)]: the request is issued and its promise is not
    awaited; the session answers later through the callbacks ([onopen],
    [onmessage], [onclose], [onerror]), which the event loop delivers. *)
Definition liveConnect (stream : nat) : M unit :=
  modify (on_browser (fun b =>
    with_requests (requests b ++ [LiveConnect stream]) b)).

(** [session.sendRealtimeInput({ media })] *)
Definition sendRealtimeInput (media : Blob) : M unit :=
  modify (on_browser (fun b =>
    with_requests (requests b ++ [SendRealtimeInput media]) b)).

(** [ctx.createMediaStreamSource], [ctx.createScriptProcessor] *)
Definition createCaptureNode (ctx : nat) : M nat := fun w =>
  (Ok (length (captureNodes (browser w))),
   on_browser (fun b =>
     with_captureNodes (captureNodes b ++ [mkCaptureNode ctx false]) b) w).

(** [node.connect(...)] and [node.disconnect()] *)
Definition setConnected (v : bool) (node : nat) : M unit :=
  modify (on_browser (fun b =>
    with_captureNodes
      (update_at node (fun n => mkCaptureNode (nodeContext n) v) (captureNodes b))
      b)).

(** [ctx.createBufferSource()] *)
Definition createBufferSource : M nat := fun w =>
  (Ok (length (sources (browser w))),
   on_browser (fun b =>
     with_sources (sources b ++ [mkSourceNode None 0%Q Created]) b) w).

(** [source.buffer = audioBuffer] *)
Definition setBuffer (source : nat) (audioBuffer : AudioBuffer) : M unit :=
  modify (on_browser (fun b =>
    with_sources
      (update_at source
         (fun n => mkSourceNode (Some audioBuffer) (startAt n) (playback n))
         (sources b)) b)).

(** [source.start(when)]: a negative time is a [RangeError], a second start
    an [InvalidStateError]. *)
Definition startSource (source : nat) (when : Q) : M unit := fun w =>
  match sources (browser w) !! source with
  | Some n =>
      if negb (Qle_bool 0 when) then (Throw RangeError, w)
      else match playback n with
           | Created =>
               (Ok tt,
                on_browser (fun b =>
                  with_sources
                    (<[source := mkSourceNode (buffer n) when Scheduled]> (sources b))
                    b) w)
           | _ => (Throw InvalidStateError, w)
           end
  | None => (Throw InvalidStateError, w)
  end.

(** [source.stop()]: stops a source that is scheduled or playing.  On one
    that was never started it raises; on one that already finished or was
    already stopped it raises in a strict engine and does nothing
    otherwise. *)
Definition stopSource (source : nat) : M unit := fun w =>
  match sources (browser w) !! source with
  | Some n =>
      match playback n with
      | Created => (Throw InvalidStateError, w)
      | Scheduled =>
          (Ok tt,
           on_browser (fun b =>
             with_sources
               (<[source := mkSourceNode (buffer n) (startAt n) Stopped]> (sources b))
               b) w)
      | Stopped | Finished =>
          if strictStop (browser w) then (Throw InvalidStateError, w)
          else (Ok tt, w)
      end
  | None => (Throw InvalidStateError, w)
  end.

(** ** LiveClient *)

Definition updateState (partial : PartialState) : M unit := fun w =>
  let state := spread (currentState (client w)) partial in
  (Ok tt,
   on_browser (fun b => with_notified (notified b ++ [state]) b)
     (on_client (with_currentState state) w)).

Definition exn_message (e : Exn) : string :=
  match e with
  | DOMException d => errMessage d
  | InvalidCharacterError => "The string to be decoded is not correctly encoded."
  | RangeError => "Invalid typed array length"
  | NotSupportedError => "The operation is not supported."
  | InvalidStateError => "The object is in an invalid state."
  end.

(** [a || b] on strings *)
Definition or_else (a b : string) : string := if truthy a then a else b.

Definition connect : M unit :=
  try_catch
    (updateState (mkPartial None None (Some None)) >>
     let* ic := newAudioContext 16000 in
     modify (on_client (with_inputContext (Some ic))) >>
     let* oc := newAudioContext 24000 in
     modify (on_client (with_outputContext (Some oc))) >>
     let* stream := getUserMedia in
     liveConnect stream)
    (fun error =>
       updateState
         (mkPartial None None
            (Some (Some (or_else (exn_message error) "Failed to connect"))))).

Definition startInputStream (stream : nat) : M unit :=
  let* ic := gets (fun w => inputContext (client w)) in
  match ic with
  | None => ret tt
  | Some ctx =>
      let* src := createCaptureNode ctx in
      modify (on_client (with_inputSource (Some src))) >>
      let* proc := createCaptureNode ctx in
      modify (on_client (with_processor (Some proc))) >>
      setConnected true src >>
      setConnected true proc
  end.

(** The [onaudioprocess] handler installed by [startInputStream]. *)
Definition onaudioprocess (inputData : list Q) : M unit :=
  let* pcmBlob := liftR (createBlob inputData) in
  sendRealtimeInput pcmBlob.

(** The [ended] listener attached to every scheduled source. *)
Definition onended : M unit :=
  let* oc := gets (fun w => outputContext (client w)) in
  match oc with
  | Some ctx =>
      let* now := currentTimeOf ctx in
      let* cursor := gets (fun w => nextStartTime (client w)) in
      if Qle_bool cursor now
      then updateState (mkPartial None (Some false) None)
      else ret tt
  | None => ret tt
  end.

Definition stopAudioQueue : M unit :=
  let* queue := gets (fun w => audioQueue (client w)) in
  forEach queue (fun source => try_catch (stopSource source) (fun _ => ret tt)) >>
  modify (on_client (with_audioQueue [])) >>
  modify (on_client (with_nextStartTime 0%Q)).

(** The scheduling branch of [handleMessage], for a truthy [audioString]
    and an output context.  [decodeAudioData] is an [async] function that
    never waits, so the [await] on it resumes in the same turn of the event
    loop, before any other callback: the branch runs as one step.  An
    exception leaves the branch, and [handleMessage], where it is thrown. *)
Definition schedule (audioString : string) (ctx : nat) : M unit :=
  updateState (mkPartial None (Some true) None) >>
  let* now := currentTimeOf ctx in
  let* cursor := gets (fun w => nextStartTime (client w)) in
  modify (on_client (with_nextStartTime (Qmax cursor now))) >>
  let* bytes := liftR (decode audioString) in
  let* audioBuffer := liftR (decodeAudioData bytes 24000 1) in
  let* source := createBufferSource in
  setBuffer source audioBuffer >>
  let* startTime := gets (fun w => nextStartTime (client w)) in
  startSource source startTime >>
  modify (on_client (with_nextStartTime (startTime + duration audioBuffer)%Q)) >>
  modify (on_client (fun c => with_audioQueue (audioQueue c ++ [source]) c)).

Definition handleMessage (message : LiveServerMessage) : M unit :=
  let* oc := gets (fun w => outputContext (client w)) in
  match audioString_of message, oc with
  | Some audioString, Some ctx =>
      if truthy audioString then schedule audioString ctx else ret tt
  | _, _ => ret tt
  end >>
  if interrupted_of message
  then stopAudioQueue >> updateState (mkPartial None (Some false) None)
  else ret tt.

Definition disconnect : M unit :=
  stopAudioQueue >>
  let* src := gets (fun w => inputSource (client w)) in
  when_some src (setConnected false) >>
  let* proc := gets (fun w => processor (client w)) in
  when_some proc (setConnected false) >>
  let* ic := gets (fun w => inputContext (client w)) in
  when_some ic closeContext >>
  let* oc := gets (fun w => outputContext (client w)) in
  when_some oc closeContext >>
  modify (on_client (with_inputContext None)) >>
  modify (on_client (with_outputContext None)) >>
  updateState (mkPartial (Some false) (Some false) None).

(** The callbacks handed to [ai.live.connect]. *)
Definition onopen (stream : nat) : M unit :=
  updateState (mkPartial (Some true) None None) >>
  startInputStream stream.

Definition onmessage (message : LiveServerMessage) : M unit :=
  handleMessage message.

Definition onclose : M unit := disconnect.

Definition onerror (err : Exn) : M unit :=
  updateState (mkPartial None None (Some (Some "Connection lost"%string))) >>
  disconnect.

(** ** The event loop *)

Inductive Event : Type :=
  | Tick (dt : Q)
  | Connect
  | Disconnect
  | OnOpen (stream : nat)
  | OnMessage (message : LiveServerMessage)
  | OnClose
  | OnError (err : Exn)
  | Ended (source : nat)
  | AudioProcess (inputData : list Q).

(** Time passes on every context that is not closed. *)
Definition tick (dt : Q) : M unit :=
  modify (on_browser (fun b =>
    with_contexts
      (map (fun c =>
              if closed c then c
              else mkAudioContext (contextRate c) (currentTime c + dt)%Q false)
           (contexts b)) b)).

(** A source that ends: if it was still scheduled it has played to its end;
    then its listener runs. *)
Definition ended (source : nat) : M unit :=
  modify (on_browser (fun b =>
    with_sources
      (update_at source
         (fun n =>
            match playback n with
            | Scheduled => mkSourceNode (buffer n) (startAt n) Finished
            | _ => n
            end) (sources b)) b)) >>
  onended.

(** Whether the capture loop of the client runs: its processor is connected
    in a context that is not closed. *)
Definition capturing (w : World) : bool :=
  match processor (client w) with
  | Some p =>
      match captureNodes (browser w) !! p with
      | Some n =>
          connected n &&
          match contexts (browser w) !! nodeContext n with
          | Some c => negb (closed c)
          | None => false
          end
      | None => false
      end
  | None => false
  end.

Definition dispatch (ev : Event) : M unit :=
  match ev with
  | Tick dt => tick dt
  | Connect => connect
  | Disconnect => disconnect
  | OnOpen stream => onopen stream
  | OnMessage message => onmessage message
  | OnClose => onclose
  | OnError err => onerror err
  | Ended source => ended source
  | AudioProcess inputData =>
      fun w => if capturing w then onaudioprocess inputData w else (Ok tt, w)
  end.

(** One turn of the event loop; an exception that escapes a handler is
    reported and the loop goes on. *)
Definition step (w : World) (ev : Event) : World := snd (dispatch ev w).

Definition run (events : list Event) (w : World) : World :=
  fold_left step events w.

Definition new_browser : Browser :=
  mkBrowser [] [] [] None (inr 0%nat) false [] [].

Definition new_world : World := mkWorld new_client new_browser.

(** ** Observations used in the statements *)

(** What [stop] leaves of a source. *)
Definition halt (n : SourceNode) : SourceNode :=
  match playback n with
  | Scheduled => mkSourceNode (buffer n) (startAt n) Stopped
  | _ => n
  end.

(** The sources after each handle of a queue has been stopped in turn. *)
Definition stop_all (queue : list nat) (l : list SourceNode) : list SourceNode :=
  fold_left (fun l h => update_at h halt l) queue l.

Definition playing (n : SourceNode) : bool :=
  match playback n with
  | Scheduled => true
  | _ => false
  end.

(** The payload of a message as [handleMessage] decodes it. *)
Definition decoded (audioString : string) : Result AudioBuffer :=
  bindR (decode audioString) (fun bytes => decodeAudioData bytes 24000 1).

(** The playable chunk an inbound message carries, if any: the first part's
    payload, truthy, decoded as [handleMessage] decodes it. *)
Definition chunk_of (message : LiveServerMessage) : option AudioBuffer :=
  match audioString_of message with
  | Some audioString =>
      if truthy audioString then
        match decoded audioString with
        | Ok audioBuffer => Some audioBuffer
        | Throw _ => None
        end
      else None
  | None => None
  end.

(** The interval of the output timeline a source occupies. *)
Definition source_duration (n : SourceNode) : Q :=
  match buffer n with
  | Some audioBuffer => duration audioBuffer
  | None => 0%Q
  end.

Definition span (n : SourceNode) : Q * Q := (startAt n, source_duration n).

Definition spans (w : World) : list (Q * Q) := map span (sources (browser w)).

Definition buffers (w : World) : list (option AudioBuffer) :=
  map buffer (sources (browser w)).

(** Consecutive intervals: each starts no earlier than its predecessor
    starts, and no earlier than its predecessor ends. *)
Fixpoint no_overlap (l : list (Q * Q)) : Prop :=
  match l with
  | [] => True
  | s1 :: rest =>
      match rest with
      | [] => True
      | s2 :: _ =>
          (fst s1 <= fst s2)%Q /\ (fst s1 + snd s1 <= fst s2)%Q /\ no_overlap rest
      end
  end.

(** [pushed w w']: from [w] to [w'] the observer received some snapshots,
    and the state the client holds is the last of them (or, without any,
    the state it held). *)
Definition pushed (w w' : World) : Prop :=
  exists snapshots,
    notified (browser w') = notified (browser w) ++ snapshots /\
    currentState (client w') = List.last snapshots (currentState (client w)).

(** A computation that keeps a relation between the world it starts in and
    the world it leaves, whether it returns or throws. *)
Definition keeps (R : World -> World -> Prop) {A} (m : M A) : Prop :=
  forall w, R w (snd (m w)).

(** The world once [schedule] has scheduled [audioBuffer] on [ctx]. *)
Definition scheduled (w : World) (ctx : nat) (audioBuffer : AudioBuffer) : World :=
  let c := client w in
  let b := browser w in
  let startTime := Qmax (nextStartTime c) (timeOf b ctx) in
  let state := spread (currentState c) (mkPartial None (Some true) None) in
  mkWorld
    (mkClient (inputContext c) (outputContext c) (inputSource c) (processor c)
              (startTime + duration audioBuffer)%Q
              (audioQueue c ++ [length (sources b)])
              state)
    (mkBrowser (contexts b)
               (sources b ++ [mkSourceNode (Some audioBuffer) startTime Scheduled])
               (captureNodes b) (audioSupport b) (microphone b) (strictStop b)
               (notified b ++ [state]) (requests b)).

(** The world once [stopAudioQueue] has run: every queued handle stopped,
    the queue empty, the cursor at zero. *)
Definition silenced (w : World) : World :=
  mkWorld
    (with_nextStartTime 0%Q (with_audioQueue [] (client w)))
    (with_sources (stop_all (audioQueue (client w)) (sources (browser w)))
                  (browser w)).

Definition speaking (v : bool) : PartialState := mkPartial None (Some v) None.

(** ** Sample worlds and messages *)

(** A message with one audio part and, possibly, the interruption flag. *)
Definition audio_message (payload : string) (flag : bool) : LiveServerMessage :=
  mkMessage (Some (mkServerContent
    (Some (mkModelTurn (Some [mkPart (Some (mkInlineData (Some payload)))])))
    (if flag then Some true else None))).

(** A message with the interruption flag only. *)
Definition interruption : LiveServerMessage :=
  mkMessage (Some (mkServerContent None (Some true))).

(** A session that was opened half a second ago. *)
Definition active_world : World :=
  run [Connect; OnOpen 0%nat; Tick (1 # 2)] new_world.

(** The same session after two chunks, of two and of three frames, the
    second a tenth of a second after the first. *)
Definition busy_world : World :=
  run [OnMessage (audio_message "AAAAAA==" false); Tick (1 # 10);
       OnMessage (audio_message "AAAAAAAA" false)] active_world.

(** A strict engine in which the first chunk has already ended. *)
Definition strict_world : World :=
  on_browser (fun b =>
    mkBrowser (contexts b) (sources b) (captureNodes b) (audioSupport b)
              (microphone b) true (notified b) (requests b))
    (run [Ended 0%nat] busy_world).

(** The chunk an event brings, if any. *)
Definition arrival (ev : Event) : option AudioBuffer :=
  match ev with
  | OnMessage message => chunk_of message
  | _ => None
  end.

(** The chunks a sequence of events brings, in arrival order. *)
Definition arrivals (events : list Event) : list AudioBuffer :=
  omap arrival events.

(** An event of uninterrupted playback: time passing, a source ending, a
    capture block, or a message without the interruption flag that carries
    a playable chunk or no audio at all. *)
Definition steady (ev : Event) : Prop :=
  match ev with
  | Tick _ | Ended _ | AudioProcess _ => True
  | OnMessage message =>
      interrupted_of message = false /\
      (audioString_of message = None \/ chunk_of message <> None)
  | _ => False
  end.

(** [node.disconnect()] and [ctx.close()] on a reference that may be null. *)
Definition unplugged (n : CaptureNode) : CaptureNode :=
  mkCaptureNode (nodeContext n) false.

Definition shut (c : AudioContext) : AudioContext :=
  mkAudioContext (contextRate c) (currentTime c) true.

Definition unplug (node : option nat) (l : list CaptureNode) : list CaptureNode :=
  match node with
  | Some p => update_at p unplugged l
  | None => l
  end.

Definition close (ctx : option nat) (l : list AudioContext) : list AudioContext :=
  match ctx with
  | Some i => update_at i shut l
  | None => l
  end.

(** The world once [disconnect] has run. *)
Definition torn_down (w : World) : World :=
  let c := client w in
  let b := browser w in
  let state := spread (currentState c) (mkPartial (Some false) (Some false) None) in
  mkWorld
    (mkClient None None (inputSource c) (processor c) 0%Q [] state)
    (mkBrowser
       (close (outputContext c) (close (inputContext c) (contexts b)))
       (stop_all (audioQueue c) (sources b))
       (unplug (processor c) (unplug (inputSource c) (captureNodes b)))
       (audioSupport b) (microphone b) (strictStop b)
       (notified b ++ [state]) (requests b)).

Definition is_closed (b : Browser) (ctx : nat) : bool :=
  match contexts b !! ctx with
  | Some c => closed c
  | None => false
  end.

Definition is_connected (b : Browser) (node : nat) : bool :=
  match captureNodes b !! node with
  | Some n => connected n
  | None => false
  end.



(** A cursor that is not negative stays so. *)
Definition cursor_kept (w w' : World) : Prop :=
  (0 <= nextStartTime (client w))%Q -> (0 <= nextStartTime (client w'))%Q.

(** ** Further observations *)

(** A source that has a buffer and has been started. *)
Definition launched (n : SourceNode) : bool :=
  match buffer n, playback n with
  | Some _, Created => false
  | Some _, _ => true
  | None, _ => false
  end.

(** Every handle of the playback queue refers to a launched source. *)
Definition queue_launched (w : World) : bool :=
  forallb (fun h =>
             match sources (browser w) !! h with
             | Some n => launched n
             | None => false
             end)
          (audioQueue (client w)).




(** What the handlers of the session and of capture leave alone: the
    sources and the playback queue. *)
Definition playback_kept (w w' : World) : Prop :=
  sources (browser w') = sources (browser w) /\
  audioQueue (client w') = audioQueue (client w).

(** The world once [connect] has set up the audio contexts, obtained the
    microphone stream and asked for a session. *)
Definition session_requested (w : World) (stream : nat) : World :=
  let c := client w in
  let b := browser w in
  let state := spread (currentState c) (mkPartial None None (Some None)) in
  mkWorld
    (mkClient (Some (length (contexts b))) (Some (S (length (contexts b))))
              (inputSource c) (processor c) (nextStartTime c) (audioQueue c) state)
    (mkBrowser
       (contexts b ++ [mkAudioContext 16000 0%Q false; mkAudioContext 24000 0%Q false])
       (sources b) (captureNodes b) (audioSupport b) (microphone b) (strictStop b)
       (notified b ++ [state])
       (requests b ++ [GetUserMedia; LiveConnect stream])).

(** * The components around LiveClient *)

(** ** LiveCommand: the voice panel *)

(** The observer LiveCommand installs:
    [setState(prev => ({ ...prev, ...newState }))], [newState] being a
    whole snapshot. *)
Definition merge (prev newState : LiveClientState) : LiveClientState :=
  spread prev (mkPartial (Some (isConnected newState))
                         (Some (isSpeaking newState))
                         (Some (error newState))).

(** The state of the component: its initial state with every snapshot the
    observer received merged in, in order. *)
Definition panel_state (w : World) : LiveClientState :=
  fold_left merge (notified (browser w)) (mkState false false None).

Definition toggleConnection : M unit := fun w =>
  if isConnected (panel_state w) then disconnect w else connect w.

(** What happens to a mounted panel: the button is pressed, the panel is
    unmounted (its effect's cleanup disconnects), or the browser delivers
    an event to the client. *)
Inductive PanelEvent : Type :=
  | Toggle
  | Unmount
  | Session (ev : Event).

Definition panel_step (w : World) (pev : PanelEvent) : World :=
  match pev with
  | Toggle => snd (toggleConnection w)
  | Unmount => snd (disconnect w)
  | Session ev => step w ev
  end.

Definition panel_run (pevents : list PanelEvent) (w : World) : World :=
  fold_left panel_step pevents w.

(** The session event a panel event amounts to in a given world. *)
Definition as_session_event (w : World) (pev : PanelEvent) : Event :=
  match pev with
  | Toggle => if isConnected (panel_state w) then Disconnect else Connect
  | Unmount => Disconnect
  | Session ev => ev
  end.

(** ** The dashboard: conflict data, charts, map markers *)

Module Dashboard.

Inductive ConflictType : Type :=
  | BATTLE
  | PROTEST
  | RIOT
  | EXPLOSION
  | VIOLENCE_AGAINST_CIVILIANS
  | STRATEGIC_DEVELOPMENT.

(** The string each member of the enum stands for. *)
Definition type_name (t : ConflictType) : string :=
  match t with
  | BATTLE => "Battle"
  | PROTEST => "Protest"
  | RIOT => "Riot"
  | EXPLOSION => "Explosion/Remote violence"
  | VIOLENCE_AGAINST_CIVILIANS => "Violence against civilians"
  | STRATEGIC_DEVELOPMENT => "Strategic development"
  end.

(** Fatality counts are whole numbers; on those the additions of the
    program are exact. *)
Record ConflictEvent : Type := mkConflictEvent {
  event_id : string;
  date : string;
  type : ConflictType;
  subType : option string;
  actor1 : string;
  actor2 : option string;
  country : string;
  location : string;
  latitude : Q;
  longitude : Q;
  fatalities : Z;
  description : string;
  source : option string
}.

(** ** Analytics: the charts *)

(** A [Record<string, number>]: the own properties of an object, in the
    order they were created (none of the keys used here is an array
    index). *)
Definition Stats : Type := list (string * Z).

(** [stats[key]] *)
Fixpoint get (stats : Stats) (key : string) : option Z :=
  match stats with
  | [] => None
  | (k, v) :: rest => if String.eqb key k then Some v else get rest key
  end.

(** [stats[key] = v]: an existing property keeps its place. *)
Fixpoint set (stats : Stats) (key : string) (v : Z) : Stats :=
  match stats with
  | [] => [(key, v)]
  | (k, v0) :: rest =>
      if String.eqb key k then (k, v) :: rest else (k, v0) :: set rest key v
  end.

(** [x || 0] on a number that may be undefined. *)
Definition or_zero (x : option Z) : Z :=
  match x with
  | Some v => v
  | None => 0
  end.

Record Stat : Type := mkStat { name : string; value : Z }.

(** [Object.keys(stats).map(key => ({ name: key, value: stats[key] }))] *)
Definition entries (stats : Stats) : list Stat :=
  map (fun key => mkStat key (or_zero (get stats key))) (map fst stats).

Definition typeStats (events : list ConflictEvent) : list Stat :=
  let stats :=
    fold_left (fun stats e =>
                 set stats (type_name (type e))
                     (or_zero (get stats (type_name (type e))) + 1))
              events [] in
  entries stats.

Definition fatalityStats (events : list ConflictEvent) : list Stat :=
  let stats :=
    fold_left (fun stats e =>
                 set stats (type_name (type e))
                     (or_zero (get stats (type_name (type e))) + fatalities e))
              events [] in
  List.filter (fun item => 0 <? value item) (entries stats).


(** The label of a category on the axis of the bar chart. *)
Definition tickFormatter (val : string) : string :=
  if (10 <? String.length val)%nat
  then (substring 0 10 val ++ "...")%string
  else val.

(** [COLORS[name] || '#8884d8'], the colour of a chart cell. *)
Definition COLORS : list (string * string) :=
  [(type_name BATTLE, "#dc2626"); (type_name PROTEST, "#3b82f6");
   (type_name RIOT, "#f97316"); (type_name EXPLOSION, "#b91c1c");
   (type_name VIOLENCE_AGAINST_CIVILIANS, "#7f1d1d");
   (type_name STRATEGIC_DEVELOPMENT, "#10b981")]%string.

Fixpoint color_of (table : list (string * string)) (key : string) : option string :=
  match table with
  | [] => None
  | (k, c) :: rest => if String.eqb key k then Some c else color_of rest key
  end.

Definition cell_fill (entry : Stat) : string :=
  match color_of COLORS (name entry) with
  | Some c => if truthy c then c else "#8884d8"
  | None => "#8884d8"
  end.

(** ** Map: the colour of a marker, from [createCustomIcon] *)
Definition marker_color (t : ConflictType) : string :=
  match t with
  | BATTLE => "#dc2626"
  | PROTEST => "#3b82f6"
  | RIOT => "#f97316"
  | EXPLOSION => "#b91c1c"
  | VIOLENCE_AGAINST_CIVILIANS => "#7f1d1d"
  | STRATEGIC_DEVELOPMENT => "#10b981"
  end.

(** ** Counting, for the statements *)

Definition sum_values (l : list Stat) : Z :=
  fold_right (fun s acc => value s + acc) 0 l.

(** The events whose type has a given name, and the total of a weight over
    a list of events. *)
Definition with_name (key : string) (events : list ConflictEvent)
  : list ConflictEvent :=
  List.filter (fun e => String.eqb (type_name (type e)) key) events.

Definition sum_of (weight : ConflictEvent -> Z) (l : list ConflictEvent) : Z :=
  fold_right (fun e acc => weight e + acc) 0 l.

(** A list without its repetitions, each element where it first occurs. *)
Definition first_seen (l : list string) : list string :=
  rev (List.nodup string_dec (rev l)).

Definition sum_stats (stats : Stats) : Z :=
  fold_right (fun kv acc => snd kv + acc) 0 stats.

(** The keyed totals the two charts are built from, for any weight. *)
Definition tally (weight : ConflictEvent -> Z) (events : list ConflictEvent)
           (stats : Stats) : Stats :=
  fold_left (fun stats e =>
               set stats (type_name (type e))
                   (or_zero (get stats (type_name (type e))) + weight e))
            events stats.

(** An event of a given type with a given number of fatalities. *)
Definition sample_event (t : ConflictType) (n : Z) : ConflictEvent :=
  mkConflictEvent "e1" "2024-01-01" t None "A" None "Mali" "Gao" 16 0 n "" None.

(** ** The query flow: geminiService and App *)

(** A JavaScript string, as its UTF-16 code units. *)
Definition JSString : Type := list N.

Definition js (s : string) : JSString := map N_of_ascii (list_ascii_of_string s).

(** The code units [trim] removes: WhiteSpace and LineTerminator of
    ECMAScript. *)
Definition is_whitespace (c : N) : bool :=
  match c with
  | 9%N | 10%N | 11%N | 12%N | 13%N | 32%N | 160%N | 5760%N
  | 8232%N | 8233%N | 8239%N | 8287%N | 12288%N | 65279%N => true
  | _ => (8192 <=? c)%N && (c <=? 8202)%N
  end.

Fixpoint trimStart (s : JSString) : JSString :=
  match s with
  | [] => []
  | c :: rest => if is_whitespace c then trimStart rest else s
  end.

Definition trimEnd (s : JSString) : JSString := rev (trimStart (rev s)).

Definition trim (s : JSString) : JSString := trimEnd (trimStart s).

(** [!s] on a string *)
Definition empty (s : JSString) : bool :=
  match s with
  | [] => true
  | _ :: _ => false
  end.

Inductive Trend : Type := escalating | de_escalating | stable | volatile.

Record AnalysisResult : Type := mkAnalysisResult {
  summary : string;
  keyActors : list string;
  trend : Trend;
  events : list ConflictEvent
}.

Inductive Tab : Type := map_tab | analytics_tab | live_tab.

Record AppState : Type := mkAppState {
  query : JSString;
  isLoading : bool;
  error : option string;
  activeTab : Tab;
  isSidebarOpen : bool;
  analysisData : option AnalysisResult
}.

Definition INITIAL_QUERY : JSString :=
  js "Recent conflict events in the Sahel region".

Definition initial_app : AppState :=
  mkAppState INITIAL_QUERY false None map_tab true None.

Definition no_response : Exn :=
  DOMException (mkDOMError "Error" "No response from AI").

Definition search_failed : string :=
  "Failed to analyze conflict data. Please check your API key or try a different query.".

Section QueryFlow.

(** The hosted generation service, by the query it is asked: it fails, or
    answers with a text that may be missing. *)
Variable generateContent : JSString -> Result (option JSString).

(** [JSON.parse] of the answer, taken at the type the program casts it
    to. *)
Variable JSON_parse : JSString -> Result AnalysisResult.

(** [analyzeConflicts]: every failure inside the [try] is logged and
    thrown again. *)
Definition analyzeConflicts (query : JSString) : Result AnalysisResult :=
  let body :=
    bindR (generateContent query) (fun text =>
    match text with
    | Some t => if empty t then Throw no_response else JSON_parse t
    | None => Throw no_response
    end) in
  match body with
  | Ok data => Ok data
  | Throw error => Throw error
  end.

(** [handleSearch], with the requests it sends to the service. *)
Definition handleSearch (st : AppState) : AppState * list JSString :=
  if empty (trim (query st)) then (st, [])
  else
    let st1 :=
      mkAppState (query st) true None (activeTab st) (isSidebarOpen st)
                 (analysisData st) in
    let st2 :=
      match analyzeConflicts (query st) with
      | Ok result =>
          mkAppState (query st1) (isLoading st1) (error st1) (activeTab st1)
                     (isSidebarOpen st1) (Some result)
      | Throw _ =>
          mkAppState (query st1) (isLoading st1) (Some search_failed)
                     (activeTab st1) (isSidebarOpen st1) (analysisData st1)
      end in
    (mkAppState (query st2) false (error st2) (activeTab st2)
                (isSidebarOpen st2) (analysisData st2),
     [query st]).

End QueryFlow.

End Dashboard.

(** * Properties *)

(** ** AudioCodec *)

Section ListBy3.
Context {A : Type} (P : list A -> Prop).
Hypothesis H0 : P [].
Hypothesis H1 : forall a, P [a].
Hypothesis H2 : forall a b, P [a; b].
Hypothesis H3 : forall a b c l, P l -> P (a :: b :: c :: l).

Lemma list_ind3 : forall l, P l.
Proof.
  assert (H : forall l, P l /\ (forall a, P (a :: l)) /\ (forall a b, P (a :: b :: l))).
  { induction l as [|x l (IH0 & IH1 & IH2)]; repeat split; auto. }
  intros l. apply H.
Qed.
End ListBy3.

Lemma Z_of_byte_range (b : byte) : is_octet (Z_of_byte b).
Proof.
  unfold is_octet, Z_of_byte. pose proof (Byte.to_N_bounded b). lia.
Qed.

Lemma byte_of_Z_of_byte (b : byte) : byte_of_Z (Z_of_byte b) = b.
Proof.
  pose proof (Z_of_byte_range b) as Hb. unfold is_octet in Hb.
  unfold byte_of_Z. rewrite Z.mod_small by lia.
  unfold Z_of_byte. rewrite N2Z.id, Byte.of_to_N. reflexivity.
Qed.

Lemma Z_of_byte_of_Z (z : Z) : Z_of_byte (byte_of_Z z) = z mod 256.
Proof.
  unfold byte_of_Z, Z_of_byte.
  assert (Hr : 0 <= z mod 256 < 256) by (apply Z.mod_pos_bound; lia).
  destruct (Byte.of_N (Z.to_N (z mod 256))) as [b|] eqn:E.
  - apply Byte.to_of_N in E. rewrite E. rewrite Z2N.id; lia.
  - apply Byte.of_N_None_iff in E. lia.
Qed.

Lemma fromCharCode_octet (b : Z) : is_octet b -> fromCharCode b = b.
Proof. unfold is_octet, fromCharCode. intros. apply Z.mod_small. lia. Qed.

(** Checking a boolean property of every sextet by enumeration. *)
Lemma sextet_cases (P : Z -> bool) :
  forallb P (map Z.of_nat (seq 0 64)) = true ->
  forall s, is_sextet s -> P s = true.
Proof.
  intros H s Hs. rewrite forallb_forall in H. apply H.
  apply in_map_iff. exists (Z.to_nat s). split.
  - unfold is_sextet in Hs. lia.
  - apply in_seq. unfold is_sextet in Hs. lia.
Qed.

Lemma b64_index_char (s : Z) : is_sextet s -> b64_index (b64_char s) = Some s.
Proof.
  intros Hs.
  pose proof (sextet_cases
    (fun s => match b64_index (b64_char s) with
              | Some t => t =? s
              | None => false
              end) eq_refl s Hs) as H.
  cbv beta in H. destruct (b64_index (b64_char s)); [|discriminate].
  apply Z.eqb_eq in H. congruence.
Qed.

Lemma b64_char_not_pad (s : Z) : is_sextet s -> is_pad (b64_char s) = false.
Proof.
  intros Hs.
  apply negb_true_iff.
  exact (sextet_cases (fun s => negb (is_pad (b64_char s))) eq_refl s Hs).
Qed.

Lemma b64_char_not_space (s : Z) :
  is_sextet s -> is_ascii_whitespace (b64_char s) = false.
Proof.
  intros Hs.
  apply negb_true_iff.
  exact (sextet_cases (fun s => negb (is_ascii_whitespace (b64_char s))) eq_refl s Hs).
Qed.

Lemma b64_sextets_range (l : list Z) :
  Forall is_octet l -> Forall is_sextet (b64_sextets l).
Proof.
  induction l as [|a|a b|a b c l IH] using list_ind3; intros Hl; cbn [b64_sextets].
  - constructor.
  - inversion_clear Hl. unfold is_octet, is_sextet in *.
    repeat constructor; Z.div_mod_to_equations; lia.
  - inversion_clear Hl as [|? ? Ha Hl']. inversion_clear Hl'.
    unfold is_octet, is_sextet in *.
    repeat constructor; Z.div_mod_to_equations; lia.
  - inversion_clear Hl as [|? ? Ha Hl1]. inversion_clear Hl1 as [|? ? Hb Hl2].
    inversion_clear Hl2 as [|? ? Hc Hl3].
    repeat (constructor; [unfold is_octet, is_sextet in *; Z.div_mod_to_equations; lia|]).
    auto.
Qed.

Lemma b64_decode_sextets (l : list Z) :
  Forall is_octet l -> b64_decode (b64_sextets l) = l.
Proof.
  induction l as [|a|a b|a b c l IH] using list_ind3; intros Hl;
    cbn [b64_sextets b64_decode].
  - reflexivity.
  - inversion_clear Hl. unfold is_octet in *.
    repeat f_equal; Z.div_mod_to_equations; lia.
  - inversion_clear Hl as [|? ? Ha Hl']. inversion_clear Hl'.
    unfold is_octet in *.
    repeat f_equal; Z.div_mod_to_equations; lia.
  - inversion_clear Hl as [|? ? Ha Hl1]. inversion_clear Hl1 as [|? ? Hb Hl2].
    inversion_clear Hl2 as [|? ? Hc Hl3]. unfold is_octet in *.
    rewrite IH by assumption.
    repeat f_equal; Z.div_mod_to_equations; lia.
Qed.

Lemma sextets_chars (sx : list Z) :
  Forall is_sextet sx -> sextets (map b64_char sx) = Some sx.
Proof.
  induction 1 as [|s sx Hs _ IH]; cbn [map sextets].
  - reflexivity.
  - rewrite (b64_index_char s Hs), IH. reflexivity.
Qed.

Lemma drop_trailing_pad_cons (c : ascii) (l : list ascii) :
  is_pad c = false -> drop_trailing_pad (c :: l) = c :: drop_trailing_pad l.
Proof.
  intros Hc. destruct l as [|d [|e l]]; cbn [drop_trailing_pad]; rewrite ?Hc; reflexivity.
Qed.

Lemma drop_trailing_pad_chars (sx : list Z) (k : nat) :
  Forall is_sextet sx -> (k <= 2)%nat ->
  drop_trailing_pad (map b64_char sx ++ repeat pad_char k) = map b64_char sx.
Proof.
  intros Hsx Hk. induction Hsx as [|s sx Hs _ IH]; cbn [map app].
  - destruct k as [|[|[|k]]]; [reflexivity..|lia].
  - rewrite drop_trailing_pad_cons by (apply b64_char_not_pad; exact Hs).
    rewrite IH. reflexivity.
Qed.

Lemma filter_space_chars (sx : list Z) (k : nat) :
  Forall is_sextet sx ->
  filter (fun c => is_ascii_whitespace c = false)
         (map b64_char sx ++ repeat pad_char k)
  = map b64_char sx ++ repeat pad_char k.
Proof.
  intros Hsx. induction Hsx as [|s sx Hs _ IH]; cbn [map app].
  - induction k as [|k IHk]; [reflexivity|].
    cbn [repeat]. rewrite filter_cons_True by reflexivity. rewrite IHk. reflexivity.
  - rewrite filter_cons_True by (apply b64_char_not_space; exact Hs).
    rewrite IH. reflexivity.
Qed.

(** The shape of an encoding: the characters of the sextets followed by at
    most two pads, four characters for every three bytes. *)
Lemma b64_encode_shape (l : list Z) :
  exists k : nat,
    (k <= 2)%nat /\
    b64_encode l = map b64_char (b64_sextets l) ++ repeat pad_char k /\
    ((length (b64_sextets l) + k) mod 4 = 0)%nat /\
    (length (b64_sextets l) mod 4 <> 1)%nat.
Proof.
  induction l as [|a|a b|a b c l IH] using list_ind3.
  - exists 0%nat. repeat split; [lia|discriminate].
  - exists 2%nat. repeat split; [lia|discriminate].
  - exists 1%nat. repeat split; [lia|discriminate].
  - destruct IH as (k & Hk & Henc & Hlen & Hne).
    exists k. cbn [b64_encode b64_sextets length map app].
    rewrite Henc. repeat split; try assumption.
    + replace (S (S (S (S (length (b64_sextets l))))) + k)%nat
        with (length (b64_sextets l) + k + 1 * 4)%nat by lia.
      rewrite Nat.Div0.mod_add. exact Hlen.
    + replace (S (S (S (S (length (b64_sextets l))))))
        with (length (b64_sextets l) + 1 * 4)%nat by lia.
      rewrite Nat.Div0.mod_add. exact Hne.
Qed.

Lemma atob_btoa (l : list Z) :
  Forall is_octet l ->
  exists s, btoa l = Ok s /\ atob s = Ok l.
Proof.
  intros Hl.
  exists (string_of_list_ascii (b64_encode l)). split.
  - unfold btoa.
    assert (H : forallb (fun c => c <=? 255) l = true).
    { apply forallb_forall. intros x Hx.
      rewrite List.Forall_forall in Hl. specialize (Hl x Hx).
      unfold is_octet in Hl. apply Z.leb_le. lia. }
    rewrite H. reflexivity.
  - unfold atob. rewrite list_ascii_of_string_of_list_ascii.
    pose proof (b64_sextets_range l Hl) as Hsx.
    destruct (b64_encode_shape l) as (k & Hk & Henc & Hlen & Hne).
    rewrite Henc, (filter_space_chars _ k Hsx).
    unfold strip_padding.
    rewrite length_app, length_map, repeat_length, Hlen.
    cbn [Nat.eqb]. rewrite (drop_trailing_pad_chars _ k Hsx Hk).
    rewrite length_map.
    destruct (Nat.eqb_spec (length (b64_sextets l) mod 4) 1) as [E|_];
      [contradiction|].
    rewrite (sextets_chars _ Hsx), (b64_decode_sextets l Hl). reflexivity.
Qed.

Lemma binary_of_bytes (bytes : list byte) :
  map (fun b => fromCharCode (Z_of_byte b)) bytes = map Z_of_byte bytes /\
  Forall is_octet (map Z_of_byte bytes).
Proof.
  split.
  - apply map_ext. intros b. apply fromCharCode_octet, Z_of_byte_range.
  - apply List.Forall_forall. intros x Hx.
    apply in_map_iff in Hx. destruct Hx as (b & <- & _). apply Z_of_byte_range.
Qed.

Lemma bytes_of_binary (bytes : list byte) :
  map byte_of_Z (map Z_of_byte bytes) = bytes.
Proof.
  rewrite map_map. rewrite <- (map_id bytes) at 2.
  apply map_ext. intros b. apply byte_of_Z_of_byte.
Qed.

(** C4. Decoding the transport encoding of a byte sequence gives the
    sequence back, byte for byte: [encode] succeeds on every [Uint8Array]
    and [decode] of its result is the array. *)
Theorem decode_encode (bytes : list byte) :
  exists s, encode bytes = Ok s /\ decode s = Ok bytes.
Proof.
  destruct (binary_of_bytes bytes) as (Hbin & Hoct).
  destruct (atob_btoa (map Z_of_byte bytes) Hoct) as (s & Hs & Hd).
  exists s. unfold encode, decode. rewrite Hbin. split; [exact Hs|].
  rewrite Hd. cbn [bindR]. f_equal. apply bytes_of_binary.
Qed.

(** *** Float conversion *)

Lemma wrap16_small (n : Z) : -32768 <= n < 32768 -> wrap16 n = n.
Proof.
  intros Hn. unfold wrap16.
  destruct (Z.leb_spec 32768 (n mod 65536)); Z.div_mod_to_equations; lia.
Qed.

Lemma wrap16_range (n : Z) : -32768 <= wrap16 n < 32768.
Proof.
  unfold wrap16.
  destruct (Z.leb_spec 32768 (n mod 65536)); Z.div_mod_to_equations; lia.
Qed.

Lemma Qtrunc_nonneg (x : Q) :
  (0 <= x)%Q -> (inject_Z (Qtrunc x) <= x /\ x < inject_Z (Qtrunc x) + 1)%Q /\ 0 <= Qtrunc x.
Proof.
  intros Hx. unfold Qtrunc.
  destruct (Qle_bool 0 x) eqn:E.
  - pose proof (Qfloor_le x). pose proof (Qlt_floor x) as Hlt.
    rewrite inject_Z_plus in Hlt. repeat split; try assumption.
    change 0 with (Qfloor 0). apply Qfloor_resp_le. exact Hx.
  - apply Qle_bool_iff in Hx. congruence.
Qed.

Lemma Qtrunc_neg (x : Q) :
  (x < 0)%Q -> (x <= inject_Z (Qtrunc x) /\ inject_Z (Qtrunc x) - 1 < x)%Q /\ Qtrunc x <= 0.
Proof.
  intros Hx. unfold Qtrunc.
  destruct (Qle_bool 0 x) eqn:E.
  - apply Qle_bool_iff in E. lra.
  - pose proof (Qle_ceiling x). pose proof (Qceiling_lt x) as Hlt.
    unfold Z.sub in Hlt. rewrite inject_Z_plus in Hlt.
    repeat split; try assumption; try lra.
    change 0 with (Qceiling 0). apply Qceiling_resp_le. lra.
Qed.

(** Below full scale the conversion neither wraps nor flips a sign, and it is
    off by less than one quantization step. *)
Lemma quantize_in_range (x : Q) :
  (-1 <= x)%Q -> (x < 1)%Q ->
  ToInt16 (x * 32768) = Qtrunc (x * 32768) /\
  (Qabs (quantize x - x) < 1 / 32768)%Q /\
  ((0 <= x -> 0 <= quantize x) /\ (x <= 0 -> quantize x <= 0))%Q.
Proof.
  intros Hlo Hhi.
  assert (Hn : -32768 <= Qtrunc (x * 32768) < 32768
               /\ (Qabs (inject_Z (Qtrunc (x * 32768)) - x * 32768) < 1)%Q
               /\ ((0 <= x -> 0 <= inject_Z (Qtrunc (x * 32768)))
                   /\ (x <= 0 -> inject_Z (Qtrunc (x * 32768)) <= 0))%Q).
  { destruct (Qlt_le_dec (x * 32768) 0) as [Hneg|Hpos].
    - destruct (Qtrunc_neg _ Hneg) as ((H1 & H2) & H3).
      repeat split.
      + rewrite Zle_Qle. change (inject_Z (-32768)) with (-32768)%Q. lra.
      + lia.
      + apply Qabs_case; intros; lra.
      + intros. lra.
      + intros _. change 0%Q with (inject_Z 0). rewrite <- Zle_Qle. exact H3.
    - destruct (Qtrunc_nonneg _ Hpos) as ((H1 & H2) & H3).
      repeat split.
      + lia.
      + rewrite Zlt_Qlt. change (inject_Z 32768) with 32768%Q. lra.
      + apply Qabs_case; intros; lra.
      + intros _. change 0%Q with (inject_Z 0). rewrite <- Zle_Qle. exact H3.
      + intros. lra. }
  destruct Hn as (Hr & Habs & Hsp & Hsn).
  assert (Hw : ToInt16 (x * 32768) = Qtrunc (x * 32768))
    by (apply wrap16_small; exact Hr).
  split; [exact Hw|].
  unfold quantize. rewrite Hw.
  set (n := inject_Z (Qtrunc (x * 32768))) in *. clearbody n.
  unfold Qdiv. change (/ 32768)%Q with (1 # 32768)%Q.
  split.
  - assert (Hb : (-1 < n - x * 32768 /\ n - x * 32768 < 1)%Q).
    { revert Habs. apply Qabs_case; intros; lra. }
    apply Qabs_case; intros; lra.
  - split; intros; [specialize (Hsp ltac:(assumption))|specialize (Hsn ltac:(assumption))]; lra.
Qed.

Lemma quantize_in_range_witness :
  ToInt16 ((1 # 2) * 32768) = Qtrunc ((1 # 2) * 32768) /\
  (Qabs (quantize (1 # 2) - (1 # 2)) < 1 / 32768)%Q.
Proof.
  destruct (quantize_in_range (1 # 2)) as (H1 & H2 & _).
  - discriminate.
  - reflexivity.
  - split; [exact H1|exact H2].
Defined.


Lemma int16_of_bytes (v : Z) :
  -32768 <= v < 32768 ->
  wrap16 (Z_of_byte (byte_of_Z v) + 256 * Z_of_byte (byte_of_Z (v / 256))) = v.
Proof.
  intros Hv. rewrite !Z_of_byte_of_Z. unfold wrap16.
  destruct (Z.leb_spec 32768 ((v mod 256 + 256 * ((v / 256) mod 256)) mod 65536));
    Z.div_mod_to_equations; lia.
Qed.

Lemma int16s_of_bytes_of_int16s (l : list Z) :
  Forall (fun v => -32768 <= v < 32768) l ->
  int16s_of_bytes (bytes_of_int16s l) = l.
Proof.
  induction 1 as [|v l Hv _ IH]; [reflexivity|].
  cbn [bytes_of_int16s flat_map int16_bytes app int16s_of_bytes].
  fold (bytes_of_int16s l). rewrite IH, (int16_of_bytes v Hv). reflexivity.
Qed.

Lemma length_bytes_of_int16s (l : list Z) :
  length (bytes_of_int16s l) = (2 * length l)%nat.
Proof.
  induction l as [|v l IH]; [reflexivity|].
  cbn [bytes_of_int16s flat_map int16_bytes app length].
  fold (bytes_of_int16s l). rewrite IH. lia.
Qed.

Lemma nth_seq_all (l : list Z) :
  map (fun i => nth i l 0) (seq 0 (length l)) = l.
Proof.
  induction l as [|v l IH]; [reflexivity|].
  cbn [length seq map nth]. f_equal.
  rewrite <- seq_shift, map_map. cbn [nth]. exact IH.
Qed.

Lemma map_nth_seq (l : list Z) (f : Z -> Q) :
  map (fun i => f (nth (i * Z.to_nat 1 + 0)%nat l 0)) (seq 0 (length l)) = map f l.
Proof.
  transitivity (map f (map (fun i => nth i l 0) (seq 0 (length l)))).
  - rewrite map_map. apply map_ext. intros i. do 2 f_equal.
    change (Z.to_nat 1) with 1%nat. lia.
  - rewrite nth_seq_all. reflexivity.
Qed.

(** What comes back from a block of samples sent through the whole codec:
    one channel holding the quantized samples. *)
Lemma loopback_quantizes (data : list Q) (rate : Z) :
  data <> [] -> 0 < rate ->
  exists buf,
    loopback data rate = Ok buf /\
    channelData buf = [map quantize data] /\
    frames buf = Z.of_nat (length data).
Proof.
  intros Hne Hrate. unfold loopback, createBlob.
  set (int16 := map (fun x => ToInt16 (x * 32768)) data).
  destruct (binary_of_bytes (bytes_of_int16s int16)) as (Hbin & Hoct).
  destruct (atob_btoa _ Hoct) as (s & Hs & Hd).
  unfold encode, decode. rewrite Hbin, Hs. cbn [bindR blob_data].
  rewrite Hd. cbn [bindR]. rewrite bytes_of_binary.
  assert (Hr : Forall (fun v => -32768 <= v < 32768) int16).
  { apply List.Forall_forall. intros v Hv. apply in_map_iff in Hv.
    destruct Hv as (x & <- & _). apply wrap16_range. }
  unfold decodeAudioData.
  rewrite length_bytes_of_int16s.
  replace (Nat.odd (2 * length int16)) with false
    by (symmetry; rewrite <- Nat.negb_even, Nat.even_mul; reflexivity).
  rewrite (int16s_of_bytes_of_int16s _ Hr), Z.div_1_r.
  assert (Hlen : length int16 = length data) by apply length_map.
  assert (Hpos : 0 < Z.of_nat (length int16)).
  { rewrite Hlen. destruct data; [contradiction|cbn [length]; lia]. }
  unfold createBuffer.
  destruct (Z.leb_spec (Z.of_nat (length int16)) 0); [lia|].
  destruct (Z.leb_spec rate 0); [lia|].
  cbn [orb Z.leb bindR]. eexists. split; [reflexivity|].
  cbn [channelData frames]. split; [|lia].
  change (seq 0 (Z.to_nat 1)) with [0%nat]. cbn [map]. f_equal.
  rewrite Nat2Z.id.
  rewrite (map_nth_seq int16 (fun v => (inject_Z v / 32768)%Q)).
  unfold int16. rewrite map_map. reflexivity.
Qed.

Lemma loopback_quantizes_witness :
  exists buf,
    loopback [1 # 2; -1 # 4] 16000 = Ok buf /\
    channelData buf = [map quantize [1 # 2; -1 # 4]] /\
    frames buf = 2.
Proof.
  apply (loopback_quantizes [1 # 2; -1 # 4] 16000); [discriminate|lia].
Defined.


(** C5 (evaluation at the failing input). A sample at full scale, 1.0, is in
    range, yet [createBlob] stores it as -32768: the product 32768 does not
    fit a signed 16-bit integer and wraps.  Read back by [decodeAudioData]
    it is -1.0: the sign is flipped and the error is 2, not a quantization
    step. *)
Theorem createBlob_full_scale_wraps :
  ToInt16 (1 * 32768) = -32768 /\
  (quantize 1 == -1)%Q /\
  exists buf, loopback [1%Q] 16000 = Ok buf /\ channelData buf = [[quantize 1]].
Proof.
  split; [reflexivity|]. split; [reflexivity|].
  eexists. split; reflexivity.
Qed.


Ltac record_simpl :=
  unfold on_client, on_browser,
         with_inputContext, with_outputContext, with_inputSource,
         with_processor, with_nextStartTime, with_audioQueue,
         with_currentState, with_contexts, with_sources, with_captureNodes,
         with_notified, with_requests, timeOf;
  cbn [client browser inputContext outputContext inputSource processor
       nextStartTime audioQueue currentState contexts sources captureNodes
       audioSupport microphone strictStop notified requests fst snd
       buffer startAt playback].

(** Runs the monadic structure of a goal on a destructured world. *)
Ltac run_monad :=
  repeat (progress
    (unfold bind, ret, gets, modify, liftR, throw, try_catch, when_some,
            updateState, currentTimeOf, closeContext, liveConnect,
            sendRealtimeInput, setConnected, createBufferSource,
            createCaptureNode, setBuffer, getUserMedia;
     record_simpl; cbn beta iota)).

Section Keeps.
Variable R : World -> World -> Prop.
Hypothesis R_refl : forall w, R w w.
Hypothesis R_trans : forall a b c, R a b -> R b c -> R a c.

Lemma keeps_ret {A} (a : A) : keeps R (ret a).
Proof. intros w. apply R_refl. Qed.

Lemma keeps_throw {A} (e : Exn) : keeps R (@throw A e).
Proof. intros w. apply R_refl. Qed.

Lemma keeps_gets {A} (f : World -> A) : keeps R (gets f).
Proof. intros w. apply R_refl. Qed.

Lemma keeps_liftR {A} (r : Result A) : keeps R (liftR r).
Proof. intros w. apply R_refl. Qed.

Lemma keeps_modify (f : World -> World) :
  (forall w, R w (f w)) -> keeps R (modify f).
Proof. intros H w. apply H. Qed.

Lemma keeps_bind {A B} (m : M A) (k : A -> M B) :
  keeps R m -> (forall a, keeps R (k a)) -> keeps R (bind m k).
Proof.
  intros Hm Hk w. unfold bind. specialize (Hm w).
  destruct (m w) as [[a|e] w1]; cbn in *.
  - eapply R_trans; [exact Hm|apply Hk].
  - exact Hm.
Qed.

Lemma keeps_try_catch {A} (m : M A) (h : Exn -> M A) :
  keeps R m -> (forall e, keeps R (h e)) -> keeps R (try_catch m h).
Proof.
  intros Hm Hh w. unfold try_catch. specialize (Hm w).
  destruct (m w) as [[a|e] w1]; cbn in *.
  - exact Hm.
  - eapply R_trans; [exact Hm|apply Hh].
Qed.

Lemma keeps_when_some {A} (o : option A) (f : A -> M unit) :
  (forall a, keeps R (f a)) -> keeps R (when_some o f).
Proof. intros H. destruct o; [apply H|apply keeps_ret]. Qed.

Lemma keeps_forEach {A} (l : list A) (f : A -> M unit) :
  (forall a, keeps R (f a)) -> keeps R (forEach l f).
Proof.
  intros H. induction l as [|x l IH]; cbn [forEach].
  - apply keeps_ret.
  - apply keeps_bind; [apply H|intros _; exact IH].
Qed.

Lemma keeps_if {A} (b : bool) (m1 m2 : M A) :
  keeps R m1 -> keeps R m2 -> keeps R (if b then m1 else m2).
Proof. destruct b; auto. Qed.

Lemma keeps_run (events : list Event) :
  (forall ev, keeps R (dispatch ev)) -> forall w, R w (run events w).
Proof.
  intros H. unfold run.
  induction events as [|ev events IH]; intros w; cbn [fold_left].
  - apply R_refl.
  - eapply R_trans; [|apply IH]. apply H.
Qed.
End Keeps.

Lemma last_cons_default {A} (x : A) (l : list A) (d d' : A) :
  List.last (x :: l) d = List.last (x :: l) d'.
Proof.
  revert x. induction l as [|y l IH]; intros x; [reflexivity|].
  change (List.last (y :: l) d = List.last (y :: l) d'). apply IH.
Qed.

Lemma last_app_default {A} (l1 l2 : list A) (d : A) :
  List.last (l1 ++ l2) d = List.last l2 (List.last l1 d).
Proof.
  induction l1 as [|x l1 IH]; [reflexivity|].
  destruct l2 as [|y l2]; [rewrite app_nil_r; reflexivity|].
  transitivity (List.last (l1 ++ y :: l2) d).
  - cbn [app]. destruct l1; reflexivity.
  - rewrite IH. apply last_cons_default.
Qed.

Lemma pushed_refl (w : World) : pushed w w.
Proof. exists []. rewrite app_nil_r. split; reflexivity. Qed.

Lemma pushed_trans (a b c : World) : pushed a b -> pushed b c -> pushed a c.
Proof.
  intros (s1 & H1 & E1) (s2 & H2 & E2). exists (s1 ++ s2).
  rewrite H2, H1, app_assoc, E2, E1, last_app_default. split; reflexivity.
Qed.

Lemma pushed_same (w w' : World) :
  notified (browser w') = notified (browser w) ->
  currentState (client w') = currentState (client w) ->
  pushed w w'.
Proof. intros H1 H2. exists []. rewrite app_nil_r. split; assumption. Qed.

Lemma updateState_pushed (partial : PartialState) :
  keeps pushed (updateState partial).
Proof. intros w. eexists [_]. cbn. split; reflexivity. Qed.

(** Decomposes a goal [keeps R m] along the structure of [m]. *)
Ltac keeps_struct Hr Ht :=
  repeat match goal with
  | |- forall _, _ => intro; cbv beta
  | |- keeps _ (bind _ _) => apply keeps_bind; [exact Ht| |]
  | |- keeps _ (try_catch _ _) => apply keeps_try_catch; [exact Ht| |]
  | |- keeps _ (when_some _ _) => apply keeps_when_some; [exact Hr|]
  | |- keeps _ (forEach _ _) => apply keeps_forEach; [exact Hr|exact Ht|]
  | |- keeps _ (ret _) => apply keeps_ret; exact Hr
  | |- keeps _ (gets _) => apply keeps_gets; exact Hr
  | |- keeps _ (liftR _) => apply keeps_liftR; exact Hr
  | |- keeps _ (if _ then _ else _) => apply keeps_if
  | |- keeps _ (match ?o with Some _ => _ | None => _ end) => destruct o
  end.

Ltac unfold_prims :=
  unfold newAudioContext, closeContext, getUserMedia, liveConnect,
         sendRealtimeInput, createCaptureNode, setConnected,
         createBufferSource, setBuffer, startSource, stopSource, tick,
         currentTimeOf, modify, gets, ret, liftR, on_browser, on_client.

Ltac pushed_prim :=
  let w := fresh "w" in
  intros w; apply pushed_same; unfold_prims;
  repeat (cbn; match goal with
               | |- context [match ?x with _ => _ end] => destruct x
               end);
  reflexivity.

Ltac pushed_auto :=
  keeps_struct pushed_refl pushed_trans;
  first [apply updateState_pushed | assumption | pushed_prim].

Lemma stopAudioQueue_pushed : keeps pushed stopAudioQueue.
Proof. unfold stopAudioQueue; pushed_auto. Qed.

Lemma disconnect_pushed : keeps pushed disconnect.
Proof.
  pose proof stopAudioQueue_pushed. unfold disconnect; pushed_auto.
Qed.

Lemma dispatch_pushed (ev : Event) : keeps pushed (dispatch ev).
Proof.
  pose proof stopAudioQueue_pushed. pose proof disconnect_pushed.
  destruct ev; cbn [dispatch];
    unfold connect, onopen, startInputStream, onmessage, handleMessage,
           schedule, onclose, onerror, ended, onended, onaudioprocess;
    pushed_auto.
Qed.

(** C7. Every transition goes through [updateState], which never raises and
    calls the observer exactly once with the full new state: the snapshot
    is the state the client now holds, with all three fields, those the
    partial update names at their new values and the others as they were.
    No handler changes the state in any other way: over any event, the
    state the client ends with is the last snapshot pushed. *)
Theorem updateState_pushes_snapshot (partial : PartialState) (w : World) :
  let old := currentState (client w) in
  let w' := snd (updateState partial w) in
  fst (updateState partial w) = Ok tt /\
  notified (browser w') = notified (browser w) ++ [currentState (client w')] /\
  currentState (client w') =
    mkState (or_keep (set_isConnected partial) (isConnected old))
            (or_keep (set_isSpeaking partial) (isSpeaking old))
            (or_keep (set_error partial) (error old)) /\
  (forall speaking err,
     isConnected (spread old (mkPartial None speaking err)) = isConnected old) /\
  (forall conn err,
     isSpeaking (spread old (mkPartial conn None err)) = isSpeaking old) /\
  (forall conn speaking,
     error (spread old (mkPartial conn speaking None)) = error old) /\
  (forall ev, pushed w (step w ev)).
Proof.
  cbn. repeat split. intros ev. apply dispatch_pushed.
Qed.

(** ** PlaybackScheduler *)

Lemma update_at_last {A} (l : list A) (y : A) (f : A -> A) :
  update_at (length l) f (l ++ [y]) = l ++ [f y].
Proof.
  unfold update_at. induction l as [|x l IH]; [reflexivity|].
  cbn [length app]. change ((x :: l ++ [y]) !! S (length l)) with ((l ++ [y]) !! length l).
  destruct ((l ++ [y]) !! length l) eqn:E.
  - cbn. f_equal. exact IH.
  - cbn. f_equal. exact IH.
Qed.

Lemma lookup_last {A} (l : list A) (y : A) : (l ++ [y]) !! length l = Some y.
Proof. induction l as [|x l IH]; [reflexivity|exact IH]. Qed.

Lemma insert_last {A} (l : list A) (x y : A) :
  <[length l := x]> (l ++ [y]) = l ++ [x].
Proof. induction l as [|z l IH]; [reflexivity|]. cbn. f_equal. exact IH. Qed.

Lemma Qle_bool_max (cursor now : Q) :
  (0 <= cursor)%Q -> Qle_bool 0 (Qmax cursor now) = true.
Proof.
  intros H. apply Qle_bool_iff.
  eapply Qle_trans; [exact H|apply Q.le_max_l].
Qed.

Lemma decoded_positive (audioString : string) (audioBuffer : AudioBuffer) :
  decoded audioString = Ok audioBuffer -> (0 < duration audioBuffer)%Q.
Proof.
  unfold decoded. destruct (decode audioString) as [bytes|e]; [|discriminate].
  cbn [bindR]. unfold decodeAudioData.
  destruct (Nat.odd (length bytes)); [discriminate|].
  set (frameCount := Z.of_nat (length (int16s_of_bytes bytes)) / 1).
  unfold createBuffer.
  destruct (Z.leb_spec frameCount 0) as [|Hpos];
    [rewrite orb_true_r; discriminate|].
  cbn [orb Z.leb bindR]. intros [= <-].
  unfold duration. cbn [frames sampleRate].
  apply Qlt_shift_div_l; [reflexivity|].
  rewrite Qmult_0_l. change 0%Q with (inject_Z 0). rewrite <- Zlt_Qlt. exact Hpos.
Qed.

(** [schedule] either schedules the decoded chunk or throws. *)
Lemma schedule_cases (audioString : string) (ctx : nat) (w : World) :
  (exists audioBuffer,
     decoded audioString = Ok audioBuffer /\
     Qle_bool 0 (Qmax (nextStartTime (client w)) (timeOf (browser w) ctx)) = true /\
     schedule audioString ctx w = (Ok tt, scheduled w ctx audioBuffer)) \/
  (exists e w', schedule audioString ctx w = (Throw e, w') /\
     (decoded audioString = Throw e \/
      Qle_bool 0 (Qmax (nextStartTime (client w)) (timeOf (browser w) ctx)) = false)).
Proof.
  destruct w as [[ic oc isrc proc cursor queue st]
                 [ctxs srcs caps sup mic strict notif reqs]].
  unfold schedule, decoded, scheduled.
  run_monad.
  destruct (decode audioString) as [bytes|e]; cbn [bindR]; run_monad.
  2:{ right. do 2 eexists. split; [reflexivity|left; reflexivity]. }
  destruct (decodeAudioData bytes 24000 1) as [audioBuffer|e]; run_monad.
  2:{ right. do 2 eexists. split; [reflexivity|left; reflexivity]. }
  rewrite update_at_last. unfold startSource. run_monad.
  rewrite lookup_last. run_monad.
  destruct (Qle_bool 0 (Qmax cursor match ctxs !! ctx with
                                    | Some c => currentTime c
                                    | None => 0%Q
                                    end)) eqn:E; cbn [negb].
  - left. exists audioBuffer. repeat split.
    rewrite insert_last. reflexivity.
  - right. do 2 eexists. split; [reflexivity|right; reflexivity].
Qed.

(** *** Interruption *)

Lemma update_at_lookup {A} (i j : nat) (f : A -> A) (l : list A) :
  update_at i f l !! j = if decide (i = j) then f <$> l !! j else l !! j.
Proof.
  unfold update_at. destruct (l !! i) as [x|] eqn:E.
  - destruct (decide (i = j)) as [<-|Hne].
    + rewrite list_lookup_insert_eq by (eapply lookup_lt_Some; exact E).
      rewrite E. reflexivity.
    + apply list_lookup_insert_ne. exact Hne.
  - destruct (decide (i = j)) as [<-|Hne]; [rewrite E|]; reflexivity.
Qed.

Lemma update_at_length {A} (i : nat) (f : A -> A) (l : list A) :
  length (update_at i f l) = length l.
Proof. unfold update_at. destruct (l !! i); [apply length_insert|reflexivity]. Qed.

Lemma halt_halt (n : SourceNode) : halt (halt n) = halt n.
Proof. destruct n as [b s []]; reflexivity. Qed.

Lemma playing_halt (n : SourceNode) : playing (halt n) = false.
Proof. destruct n as [b s []]; reflexivity. Qed.

Lemma halt_idle (n : SourceNode) : playing n = false -> halt n = n.
Proof. destruct n as [b s []]; cbn; intros; congruence. Qed.

Lemma stop_all_lookup (queue : list nat) (l : list SourceNode) (h : nat) :
  stop_all queue l !! h =
  (fun n => if bool_decide (h ∈ queue) then halt n else n) <$> l !! h.
Proof.
  unfold stop_all. revert l.
  induction queue as [|x queue IH]; intros l; cbn [fold_left].
  - destruct (l !! h); reflexivity.
  - rewrite IH, update_at_lookup.
    destruct (decide (x = h)) as [->|Hne].
    + destruct (l !! h) as [n|]; [|reflexivity]. cbn.
      rewrite (bool_decide_eq_true_2 (h ∈ h :: queue)) by left.
      destruct (bool_decide (h ∈ queue)); [rewrite halt_halt|]; reflexivity.
    + destruct (l !! h) as [n|]; [|reflexivity]. cbn.
      rewrite (bool_decide_ext (h ∈ x :: queue) (h ∈ queue)); [reflexivity|].
      rewrite elem_of_cons. intuition congruence.
Qed.

Lemma stop_all_length (queue : list nat) (l : list SourceNode) :
  length (stop_all queue l) = length l.
Proof.
  unfold stop_all. revert l.
  induction queue as [|x queue IH]; intros l; cbn [fold_left]; [reflexivity|].
  rewrite IH. apply update_at_length.
Qed.

Lemma map_update_at_same {A B} (g : A -> B) (f : A -> A) (i : nat) (l : list A) :
  (forall x, g (f x) = g x) -> map g (update_at i f l) = map g l.
Proof.
  intros H. apply list_eq. intros j.
  rewrite !list_lookup_fmap, update_at_lookup.
  destruct (decide (i = j)); [|reflexivity].
  destruct (l !! j); cbn; [rewrite H|]; reflexivity.
Qed.

(** Stopping one source inside [try]/[catch]: whatever [stop] does, the
    handler swallows it. *)
Lemma stop_one (source : nat) (w : World) :
  try_catch (stopSource source) (fun _ => ret tt) w =
  (Ok tt, on_browser (fun b => with_sources (update_at source halt (sources b)) b) w).
Proof.
  destruct w as [c [ctxs srcs caps sup mic strict notif reqs]].
  unfold try_catch, stopSource, ret. record_simpl.
  unfold update_at. destruct (srcs !! source) as [n|] eqn:E; [|reflexivity].
  destruct n as [b s []]; cbn [playback halt buffer startAt]; record_simpl;
    try reflexivity;
    try (rewrite (list_insert_id _ _ _ E); destruct strict; reflexivity).
Qed.

Lemma forEach_stop (queue : list nat) (w : World) :
  forEach queue (fun source => try_catch (stopSource source) (fun _ => ret tt)) w =
  (Ok tt, on_browser (fun b => with_sources (stop_all queue (sources b)) b) w).
Proof.
  revert w. induction queue as [|h queue IH]; intros w; cbn [forEach].
  - destruct w as [c [ctxs srcs caps sup mic strict notif reqs]]. reflexivity.
  - unfold bind. rewrite stop_one, IH.
    destruct w as [c [ctxs srcs caps sup mic strict notif reqs]]. reflexivity.
Qed.

Lemma stopAudioQueue_eq (w : World) : stopAudioQueue w = (Ok tt, silenced w).
Proof.
  unfold stopAudioQueue, bind at 1, gets at 1. cbn [fst snd].
  unfold bind at 1. rewrite forEach_stop.
  destruct w as [[ic oc isrc proc cursor queue st]
                 [ctxs srcs caps sup mic strict notif reqs]].
  reflexivity.
Qed.

(** *** Handling one message *)

Lemma Qmax_lt (x y : Q) : (x < y)%Q -> Qmax x y = y.
Proof.
  intros H. apply Qlt_alt in H. unfold Qmax, GenericMinMax.gmax.
  change (x ?= y)%Q with (Qnum x * QDen y ?= Qnum y * QDen x)%Z.
  rewrite H. reflexivity.
Qed.

Lemma Qmax_ge (x y : Q) : (y <= x)%Q -> Qmax x y = x.
Proof.
  intros H. unfold Qmax, GenericMinMax.gmax.
  destruct (x ?= y)%Q eqn:E; try reflexivity.
  apply Qlt_alt in E. exfalso. exact (Qlt_not_le _ _ E H).
Qed.

Lemma chunk_of_Some (message : LiveServerMessage) (audioBuffer : AudioBuffer) :
  chunk_of message = Some audioBuffer ->
  exists audioString,
    audioString_of message = Some audioString /\
    truthy audioString = true /\
    decoded audioString = Ok audioBuffer.
Proof.
  unfold chunk_of. destruct (audioString_of message) as [s|]; [|discriminate].
  destruct (truthy s) eqn:Ht; [|discriminate].
  destruct (decoded s) as [b|e] eqn:Hd; [|discriminate].
  intros [= <-]. exists s. repeat split; assumption.
Qed.

Lemma chunk_positive (message : LiveServerMessage) (audioBuffer : AudioBuffer) :
  chunk_of message = Some audioBuffer -> (0 < duration audioBuffer)%Q.
Proof.
  intros H. destruct (chunk_of_Some _ _ H) as (s & _ & _ & Hd).
  exact (decoded_positive _ _ Hd).
Qed.

Lemma handleMessage_unfold (message : LiveServerMessage) (w : World) :
  handleMessage message w =
  match
    match audioString_of message, outputContext (client w) with
    | Some audioString, Some ctx =>
        if truthy audioString then schedule audioString ctx w else (Ok tt, w)
    | _, _ => (Ok tt, w)
    end
  with
  | (Ok _, w1) =>
      if interrupted_of message
      then updateState (speaking false) (silenced w1)
      else (Ok tt, w1)
  | (Throw e, w1) => (Throw e, w1)
  end.
Proof.
  unfold handleMessage, bind at 1, gets at 1. cbn [fst snd].
  unfold bind at 1.
  destruct (audioString_of message) as [s|];
    [destruct (outputContext (client w)) as [ctx|]; [destruct (truthy s)|]|];
    try (unfold ret at 1; destruct (interrupted_of message);
         [unfold bind; rewrite stopAudioQueue_eq|]; reflexivity).
  destruct (schedule s ctx w) as [[[]|e] w1]; [|reflexivity].
  destruct (interrupted_of message); [|reflexivity].
  unfold bind. rewrite stopAudioQueue_eq. reflexivity.
Qed.

(** A message that carries a playable chunk, on a client with an output
    context and a cursor that is not negative. *)
Lemma handleMessage_chunk (message : LiveServerMessage) (w : World)
      (ctx : nat) (audioBuffer : AudioBuffer) :
  chunk_of message = Some audioBuffer ->
  outputContext (client w) = Some ctx ->
  (0 <= nextStartTime (client w))%Q ->
  handleMessage message w =
  if interrupted_of message
  then updateState (speaking false) (silenced (scheduled w ctx audioBuffer))
  else (Ok tt, scheduled w ctx audioBuffer).
Proof.
  intros Hchunk Hctx Hcursor.
  destruct (chunk_of_Some _ _ Hchunk) as (s & Hs & Ht & Hd).
  rewrite handleMessage_unfold, Hs, Hctx, Ht.
  destruct (schedule_cases s ctx w) as [(b & Hb & _ & ->)|(e & w1 & _ & [He|He])].
  - rewrite Hd in Hb. injection Hb as <-. reflexivity.
  - rewrite Hd in He. discriminate.
  - rewrite (Qle_bool_max _ _ Hcursor) in He. discriminate.
Qed.

(** A message that carries no audio. *)
Lemma handleMessage_signal (message : LiveServerMessage) (w : World) :
  audioString_of message = None ->
  handleMessage message w =
  if interrupted_of message
  then updateState (speaking false) (silenced w)
  else (Ok tt, w).
Proof.
  intros Hs. rewrite handleMessage_unfold, Hs. reflexivity.
Qed.

(** C1. When [handleMessage] schedules the chunk of a message it starts it
    at the larger of the cursor and the current time of the output device,
    and leaves the cursor at that start time plus the chunk's duration;
    when the device clock is past the cursor the chunk starts at the
    current device time.  [w'] is the world right after the scheduling: the
    one [handleMessage] returns, or the one its interruption branch goes on
    from when the message is flagged as well. *)
Theorem handleMessage_start_time (message : LiveServerMessage) (w : World)
        (audioString : string) (ctx : nat) :
  audioString_of message = Some audioString ->
  truthy audioString = true ->
  outputContext (client w) = Some ctx ->
  fst (handleMessage message w) = Ok tt ->
  let cursor := nextStartTime (client w) in
  let now := timeOf (browser w) ctx in
  exists audioBuffer w',
    decoded audioString = Ok audioBuffer /\
    handleMessage message w =
      (if interrupted_of message
       then updateState (speaking false) (silenced w')
       else (Ok tt, w')) /\
    sources (browser w') =
      sources (browser w)
      ++ [mkSourceNode (Some audioBuffer) (Qmax cursor now) Scheduled] /\
    audioQueue (client w') = audioQueue (client w) ++ [length (sources (browser w))] /\
    nextStartTime (client w') = (Qmax cursor now + duration audioBuffer)%Q /\
    ((cursor < now)%Q -> Qmax cursor now = now) /\
    ((now <= cursor)%Q -> Qmax cursor now = cursor).
Proof.
  intros Hs Ht Hctx Hok. cbv zeta.
  rewrite handleMessage_unfold, Hs, Hctx, Ht in *.
  destruct (schedule_cases audioString ctx w)
    as [(b & Hb & _ & Hsched)|(e & w1 & Hsched & _)];
    rewrite Hsched in *; [|discriminate].
  exists b, (scheduled w ctx b). repeat split; try assumption.
  - intros Hlt. apply Qmax_lt. exact Hlt.
  - intros Hle. apply Qmax_ge. exact Hle.
Qed.

Lemma handleMessage_start_time_witness :
  exists audioBuffer,
    decoded "AAAAAAAA" = Ok audioBuffer /\ frames audioBuffer = 3.
Proof.
  destruct (handleMessage_start_time
              (audio_message "AAAAAAAA" false) active_world "AAAAAAAA" 1%nat
              eq_refl eq_refl eq_refl eq_refl)
    as (audioBuffer & w' & Hd & _).
  exists audioBuffer. split; [exact Hd|].
  vm_compute in Hd. injection Hd as <-. reflexivity.
Defined.

(** C9. [stopAudioQueue] never raises, whatever the queue holds and whether
    or not the engine's [stop] is strict: a handle whose source already
    finished or was already stopped (or was never started) is passed over
    and its source left as it was. *)
Theorem stopAudioQueue_never_raises (w : World) :
  fst (stopAudioQueue w) = Ok tt /\
  forall h n,
    sources (browser w) !! h = Some n ->
    playing n = false ->
    sources (browser (snd (stopAudioQueue w))) !! h = Some n.
Proof.
  rewrite stopAudioQueue_eq. split; [reflexivity|].
  intros h n Hn Hidle. cbn [snd silenced browser].
  unfold with_sources. cbn [sources].
  rewrite stop_all_lookup, Hn. cbn.
  destruct (bool_decide (h ∈ audioQueue (client w))); [rewrite halt_idle|]; auto.
Qed.

Lemma stopAudioQueue_never_raises_witness :
  strictStop (browser strict_world) = true /\
  audioQueue (client strict_world) = [0; 1]%nat /\
  fst (stopAudioQueue strict_world) = Ok tt /\
  exists n,
    playback n = Finished /\
    sources (browser (snd (stopAudioQueue strict_world))) !! 0%nat = Some n.
Proof.
  split; [reflexivity|]. split; [reflexivity|].
  split; [exact (proj1 (stopAudioQueue_never_raises strict_world))|].
  eexists. split;
    [|apply (proj2 (stopAudioQueue_never_raises strict_world) 0%nat);
      [vm_compute; reflexivity|reflexivity]].
  reflexivity.
Defined.

Lemma silenced_lookup_queued (w : World) (h : nat) (n : SourceNode) :
  h ∈ audioQueue (client w) ->
  sources (browser w) !! h = Some n ->
  sources (browser (silenced w)) !! h = Some (halt n).
Proof.
  intros Hin Hn. unfold silenced, with_sources. cbn [browser sources].
  rewrite stop_all_lookup, Hn. cbn.
  rewrite bool_decide_eq_true_2 by exact Hin. reflexivity.
Qed.

(** C10. A message that carries both a playable chunk and the interruption
    flag: the chunk is scheduled first (the observer sees [isSpeaking] go
    up), then the interruption stops it with the rest of the queue; the
    message leaves [isSpeaking] false, the queue empty and the cursor at
    zero. *)
Theorem audio_then_interruption (message : LiveServerMessage) (w : World)
        (ctx : nat) (audioBuffer : AudioBuffer) :
  chunk_of message = Some audioBuffer ->
  interrupted_of message = true ->
  outputContext (client w) = Some ctx ->
  (0 <= nextStartTime (client w))%Q ->
  let w' := snd (handleMessage message w) in
  let startTime := Qmax (nextStartTime (client w)) (timeOf (browser w) ctx) in
  let up := spread (currentState (client w)) (speaking true) in
  fst (handleMessage message w) = Ok tt /\
  length (sources (browser w')) = S (length (sources (browser w))) /\
  sources (browser w') !! length (sources (browser w)) =
    Some (mkSourceNode (Some audioBuffer) startTime Stopped) /\
  (forall h n, sources (browser w') !! h = Some n -> playing n = true ->
               (h ∉ audioQueue (client w)) /\ h <> length (sources (browser w))) /\
  audioQueue (client w') = [] /\
  nextStartTime (client w') = 0%Q /\
  isSpeaking (currentState (client w')) = false /\
  notified (browser w') = notified (browser w) ++ [up; spread up (speaking false)].
Proof.
  intros Hchunk Hflag Hctx Hcursor. cbv zeta.
  rewrite (handleMessage_chunk _ _ _ _ Hchunk Hctx Hcursor), Hflag.
  set (ws := scheduled w ctx audioBuffer).
  assert (Hsrc : sources (browser ws) =
                 sources (browser w)
                 ++ [mkSourceNode (Some audioBuffer)
                       (Qmax (nextStartTime (client w)) (timeOf (browser w) ctx))
                       Scheduled]) by reflexivity.
  assert (Hq : audioQueue (client ws) =
               audioQueue (client w) ++ [length (sources (browser w))])
    by reflexivity.
  cbn [fst snd updateState]. unfold on_browser, on_client. cbn [client browser].
  unfold with_notified, with_currentState. cbn [sources audioQueue nextStartTime
    currentState notified].
  split; [reflexivity|].
  split.
  { change (sources (browser (silenced ws))) with
      (stop_all (audioQueue (client ws)) (sources (browser ws))).
    rewrite stop_all_length, Hsrc, length_app. cbn. lia. }
  split.
  { rewrite (silenced_lookup_queued ws (length (sources (browser w)))
               (mkSourceNode (Some audioBuffer)
                  (Qmax (nextStartTime (client w)) (timeOf (browser w) ctx))
                  Scheduled)).
    - reflexivity.
    - rewrite Hq. apply elem_of_app. right. left.
    - rewrite Hsrc. apply lookup_last. }
  split.
  { intros h n Hn Hplay.
    change (sources (browser (silenced ws))) with
      (stop_all (audioQueue (client ws)) (sources (browser ws))) in Hn.
    rewrite stop_all_lookup in Hn.
    destruct (sources (browser ws) !! h) as [n0|]; [|discriminate].
    cbn [fmap option_fmap option_map] in Hn.
    destruct (bool_decide (h ∈ audioQueue (client ws))) eqn:E;
      injection Hn as <-.
    - rewrite playing_halt in Hplay. discriminate.
    - apply bool_decide_eq_false in E. rewrite Hq in E.
      split.
      + intros Hin. apply E, elem_of_app. left. exact Hin.
      + intros ->. apply E, elem_of_app. right. left. }
  repeat split.
  unfold ws, silenced, scheduled. record_simpl.
  rewrite <- app_assoc. reflexivity.
Qed.

Lemma audio_then_interruption_witness :
  fst (handleMessage (audio_message "AAAAAAAA" true) busy_world) = Ok tt /\
  audioQueue (client (snd (handleMessage (audio_message "AAAAAAAA" true) busy_world))) = [].
Proof.
  assert (H : (0 <= nextStartTime (client busy_world))%Q)
    by (vm_compute; discriminate).
  pose proof (audio_then_interruption
                (audio_message "AAAAAAAA" true) busy_world 1%nat _
                eq_refl eq_refl eq_refl H) as (H1 & _ & _ & _ & H2 & _).
  split; [exact H1|exact H2].
Defined.

(** C3 (as amended). The scheduler's interrupt, [stopAudioQueue], leaves
    every queued handle not playing, the queue empty and the cursor at
    exactly zero, and does not touch the session state.  The inbound
    interruption signal does the same and then sets [isSpeaking] to false.
    A chunk scheduled next is treated as on a client that never scheduled
    any: same start time, same cursor, same queue. *)
Theorem interruption_resets (w : World) :
  let w1 := snd (stopAudioQueue w) in
  (fst (stopAudioQueue w) = Ok tt /\
   audioQueue (client w1) = [] /\
   nextStartTime (client w1) = 0%Q /\
   currentState (client w1) = currentState (client w) /\
   forall h n, h ∈ audioQueue (client w) ->
               sources (browser w) !! h = Some n ->
               exists n', sources (browser w1) !! h = Some n' /\ playing n' = false) /\
  (forall message,
     audioString_of message = None ->
     interrupted_of message = true ->
     let w2 := snd (handleMessage message w) in
     fst (handleMessage message w) = Ok tt /\
     audioQueue (client w2) = [] /\
     nextStartTime (client w2) = 0%Q /\
     isSpeaking (currentState (client w2)) = false /\
     sources (browser w2) = sources (browser w1)) /\
  (forall next audioBuffer ctx,
     chunk_of next = Some audioBuffer ->
     interrupted_of next = false ->
     outputContext (client w) = Some ctx ->
     let fresh := mkWorld (with_outputContext (Some ctx) new_client) (browser w1) in
     let w3 := snd (handleMessage next w1) in
     let w4 := snd (handleMessage next fresh) in
     fst (handleMessage next w1) = Ok tt /\
     sources (browser w3) =
       sources (browser w1)
       ++ [mkSourceNode (Some audioBuffer) (Qmax 0 (timeOf (browser w) ctx)) Scheduled] /\
     sources (browser w3) = sources (browser w4) /\
     audioQueue (client w3) = audioQueue (client w4) /\
     nextStartTime (client w3) = nextStartTime (client w4)).
Proof.
  cbv zeta. rewrite stopAudioQueue_eq. cbn [fst snd]. split; [|split].
  - repeat split.
    intros h n Hin Hn. exists (halt n). split.
    + apply silenced_lookup_queued; assumption.
    + apply playing_halt.
  - intros message Hs Hflag.
    rewrite (handleMessage_signal _ _ Hs), Hflag. repeat split.
  - intros next audioBuffer ctx Hchunk Hflag Hctx.
    assert (H0 : (0 <= 0)%Q) by apply Qle_refl.
    rewrite (handleMessage_chunk next (silenced w) ctx audioBuffer Hchunk Hctx H0).
    rewrite (handleMessage_chunk next
               (mkWorld (with_outputContext (Some ctx) new_client)
                        (browser (silenced w)))
               ctx audioBuffer Hchunk eq_refl H0).
    rewrite Hflag. repeat split.
Qed.

Lemma interruption_resets_witness :
  isSpeaking (currentState (client (snd (handleMessage interruption busy_world)))) = false /\
  (exists n', sources (browser (snd (stopAudioQueue busy_world))) !! 1%nat = Some n'
              /\ playing n' = false) /\
  nextStartTime (client (snd (handleMessage (audio_message "AAAAAA==" false)
                                            (snd (stopAudioQueue busy_world)))))
  = nextStartTime (client (snd (handleMessage (audio_message "AAAAAA==" false)
      (mkWorld (with_outputContext (Some 1%nat) new_client)
               (browser (snd (stopAudioQueue busy_world))))))).
Proof.
  destruct (interruption_resets busy_world) as ((_ & _ & _ & _ & H1) & H2 & H3).
  split; [|split].
  - exact (proj1 (proj2 (proj2 (proj2 (H2 interruption eq_refl eq_refl))))).
  - eapply (H1 1%nat); [|vm_compute; reflexivity].
    apply list_elem_of_In. vm_compute. right. left. reflexivity.
  - exact (proj2 (proj2 (proj2 (proj2
             (H3 (audio_message "AAAAAA==" false) _ 1%nat eq_refl eq_refl eq_refl))))).
Defined.

(** C3 (counterexample). On the session that is speaking, after two chunks,
    [stopAudioQueue] alone empties the queue and zeroes the cursor but
    leaves [isSpeaking] true: it is its callers that set it to false. *)
Lemma stopAudioQueue_keeps_isSpeaking :
  let w' := snd (stopAudioQueue busy_world) in
  isSpeaking (currentState (client busy_world)) = true /\
  audioQueue (client w') = [] /\
  nextStartTime (client w') = 0%Q /\
  isSpeaking (currentState (client w')) = true /\
  ~ isSpeaking (currentState (client w')) = false.
Proof.
  vm_compute. repeat split. discriminate.
Qed.

(** *** Chunks in sequence *)

Lemma no_overlap_snoc (l : list (Q * Q)) (sp : Q * Q) :
  no_overlap l ->
  Forall (fun s => (fst s <= fst sp)%Q /\ (fst s + snd s <= fst sp)%Q) l ->
  no_overlap (l ++ [sp]).
Proof.
  induction l as [|s1 l IH]; intros Hno Hall; [exact I|].
  inversion_clear Hall as [|? ? (H1 & H2) Hall'].
  destruct l as [|s2 l].
  - cbn. repeat split; assumption.
  - cbn [app no_overlap] in *. destruct Hno as (Ha & Hb & Hno).
    repeat split; try assumption. apply IH; assumption.
Qed.

(** What one event of uninterrupted playback does to the scheduler. *)
Lemma step_steady (ev : Event) (w : World) (ctx : nat) :
  steady ev ->
  outputContext (client w) = Some ctx ->
  (0 <= nextStartTime (client w))%Q ->
  let w' := step w ev in
  outputContext (client w') = Some ctx /\
  match arrival ev with
  | Some audioBuffer =>
      let startTime := Qmax (nextStartTime (client w)) (timeOf (browser w) ctx) in
      spans w' = spans w ++ [(startTime, duration audioBuffer)] /\
      buffers w' = buffers w ++ [Some audioBuffer] /\
      audioQueue (client w') = audioQueue (client w) ++ [length (sources (browser w))] /\
      nextStartTime (client w') = (startTime + duration audioBuffer)%Q
  | None =>
      spans w' = spans w /\
      buffers w' = buffers w /\
      audioQueue (client w') = audioQueue (client w) /\
      nextStartTime (client w') = nextStartTime (client w)
  end.
Proof.
  intros Hsteady Hctx Hcursor. cbv zeta. unfold step.
  destruct ev; cbn [steady] in Hsteady; try contradiction;
    cbn [dispatch arrival].
  - (* Tick *)
    split; [exact Hctx|]. repeat split.
  - (* OnMessage *)
    destruct Hsteady as (Hflag & Haudio). unfold onmessage.
    destruct (chunk_of message) as [audioBuffer|] eqn:Hchunk.
    + rewrite (handleMessage_chunk _ _ _ _ Hchunk Hctx Hcursor), Hflag.
      cbn [snd]. split; [exact Hctx|].
      unfold spans, buffers. cbn [scheduled browser client sources audioQueue
                                   nextStartTime].
      rewrite !map_app. repeat split.
    + destruct Haudio as [Hnone|Hsome]; [|contradiction].
      rewrite (handleMessage_signal _ _ Hnone), Hflag.
      cbn [snd]. split; [exact Hctx|]. repeat split.
  - (* Ended *)
    destruct w as [[ic oc isrc proc cursor queue st]
                   [ctxs srcs caps sup mic strict notif reqs]].
    cbn [client outputContext] in Hctx. subst oc.
    unfold ended, onended. run_monad.
    match goal with
    | |- context [if ?c then _ else _] => destruct c
    end; run_monad; unfold spans, buffers; record_simpl;
      (split; [reflexivity|]);
      (split; [apply map_update_at_same; intros [b s []]; reflexivity|]);
      (split; [apply map_update_at_same; intros [b s []]; reflexivity|]);
      split; reflexivity.
  - (* AudioProcess *)
    destruct (capturing w); [|cbn [snd]; split; [exact Hctx|]; repeat split].
    unfold onaudioprocess, bind, liftR.
    destruct (createBlob inputData) as [blob|e]; cbn [snd];
      (split; [exact Hctx|]); repeat split.
Qed.

Lemma spans_length (w : World) : length (spans w) = length (sources (browser w)).
Proof. apply length_map. Qed.

Lemma arrivals_cons (ev : Event) (events : list Event) :
  arrivals (ev :: events) =
  match arrival ev with
  | Some audioBuffer => audioBuffer :: arrivals events
  | None => arrivals events
  end.
Proof. reflexivity. Qed.

Lemma arrivals_positive (events : list Event) :
  Forall (fun audioBuffer => (0 < duration audioBuffer)%Q) (arrivals events).
Proof.
  induction events as [|ev events IH]; [constructor|].
  rewrite arrivals_cons. destruct (arrival ev) as [b|] eqn:E; [|exact IH].
  constructor; [|exact IH].
  destruct ev; try discriminate. exact (chunk_positive _ _ E).
Qed.

(** The invariant of uninterrupted playback, relative to the sources that
    existed before ([L] of them): the later ones do not overlap and all end
    by the cursor. *)
Lemma run_steady (events : list Event) :
  forall (w : World) (ctx L : nat),
    Forall steady events ->
    outputContext (client w) = Some ctx ->
    (0 <= nextStartTime (client w))%Q ->
    (L <= length (spans w))%nat ->
    no_overlap (drop L (spans w)) ->
    Forall (fun s => (0 <= snd s)%Q /\ (fst s + snd s <= nextStartTime (client w))%Q)
           (drop L (spans w)) ->
    let w' := run events w in
    no_overlap (drop L (spans w')) /\
    map snd (spans w') = map snd (spans w) ++ map duration (arrivals events) /\
    buffers w' = buffers w ++ map Some (arrivals events) /\
    audioQueue (client w') =
      audioQueue (client w)
      ++ seq (length (sources (browser w))) (length (arrivals events)).
Proof.
  induction events as [|ev events IH]; intros w ctx L Hsteady Hctx Hcursor HL Hno Hends.
  - cbn. rewrite !app_nil_r. repeat split. exact Hno.
  - inversion_clear Hsteady as [|? ? Hev Hevents].
    change (run (ev :: events) w) with (run events (step w ev)). cbv zeta.
    pose proof (step_steady ev w ctx Hev Hctx Hcursor) as (Hctx1 & Hstep).
    rewrite arrivals_cons.
    destruct (arrival ev) as [b|] eqn:Harr.
    + destruct Hstep as (Hsp & Hbuf & Hq & Hcur).
      assert (Hpos : (0 < duration b)%Q).
      { destruct ev; try discriminate. exact (chunk_positive _ _ Harr). }
      pose proof (Q.le_max_l (nextStartTime (client w)) (timeOf (browser w) ctx))
        as Hmax.
      set (startTime := Qmax (nextStartTime (client w)) (timeOf (browser w) ctx)) in *.
      assert (Hlen1 : length (sources (browser (step w ev)))
                      = S (length (sources (browser w)))).
      { rewrite <- !spans_length, Hsp, length_app. cbn. lia. }
      destruct (IH (step w ev) ctx L Hevents Hctx1) as (Hno' & Hsnd & Hbuf' & Hq').
      * rewrite Hcur. lra.
      * rewrite Hsp, length_app. lia.
      * rewrite Hsp, drop_app_le by exact HL.
        apply no_overlap_snoc; [exact Hno|].
        eapply Forall_impl; [exact Hends|].
        intros s (H1 & H2). cbn [fst]. split; lra.
      * rewrite Hsp, drop_app_le by exact HL.
        apply Forall_app. split.
        -- eapply Forall_impl; [exact Hends|].
           intros s (H1 & H2). rewrite Hcur. split; lra.
        -- constructor; [|constructor]. cbn [fst snd]. rewrite Hcur. split; lra.
      * split; [exact Hno'|].
        rewrite Hsnd, Hbuf', Hq', Hsp, Hbuf, Hq, Hlen1, !map_app.
        cbn [map snd length seq]. rewrite <- !app_assoc. repeat split.
    + destruct Hstep as (Hsp & Hbuf & Hq & Hcur).
      assert (Hlen1 : length (sources (browser (step w ev)))
                      = length (sources (browser w))).
      { rewrite <- !spans_length, Hsp. reflexivity. }
      destruct (IH (step w ev) ctx L Hevents Hctx1) as (Hno' & Hsnd & Hbuf' & Hq').
      * rewrite Hcur. exact Hcursor.
      * rewrite Hsp. exact HL.
      * rewrite Hsp. exact Hno.
      * rewrite Hsp, Hcur. exact Hends.
      * split; [exact Hno'|].
        rewrite Hsnd, Hbuf', Hq', Hsp, Hbuf, Hq, Hlen1. repeat split.
Qed.

(** C2. Chunks scheduled in arrival order during uninterrupted playback:
    every arriving chunk is scheduled, none dropped and in its order (the
    new sources hold exactly the arriving buffers, the queue their handles
    in sequence); durations are positive; each start time is at least its
    predecessor's, and at least its predecessor's plus the predecessor's
    duration. *)
Theorem chunks_in_sequence (events : list Event) (w : World) (ctx : nat) :
  Forall steady events ->
  outputContext (client w) = Some ctx ->
  (0 <= nextStartTime (client w))%Q ->
  let w' := run events w in
  let L := length (sources (browser w)) in
  map buffer (drop L (sources (browser w'))) = map Some (arrivals events) /\
  map snd (drop L (spans w')) = map duration (arrivals events) /\
  audioQueue (client w') = audioQueue (client w) ++ seq L (length (arrivals events)) /\
  Forall (fun audioBuffer => (0 < duration audioBuffer)%Q) (arrivals events) /\
  no_overlap (drop L (spans w')).
Proof.
  intros Hsteady Hctx Hcursor. cbv zeta.
  destruct (run_steady events w ctx (length (sources (browser w)))
              Hsteady Hctx Hcursor) as (Hno & Hsnd & Hbuf & Hq).
  - rewrite spans_length. lia.
  - rewrite drop_ge by (rewrite spans_length; lia). exact I.
  - rewrite drop_ge by (rewrite spans_length; lia). constructor.
  - repeat split.
    + change (map buffer (drop (length (sources (browser w)))
                               (sources (browser (run events w)))))
        with (buffer <$> drop (length (sources (browser w)))
                               (sources (browser (run events w)))).
      rewrite fmap_drop.
      change (buffer <$> sources (browser (run events w)))
        with (buffers (run events w)).
      rewrite Hbuf. unfold buffers.
      rewrite drop_app_length'; [reflexivity|symmetry; apply length_map].
    + change (map snd (drop (length (sources (browser w))) (spans (run events w))))
        with (snd <$> drop (length (sources (browser w))) (spans (run events w))).
      rewrite fmap_drop.
      change (snd <$> spans (run events w)) with (map snd (spans (run events w))).
      rewrite Hsnd.
      rewrite drop_app_length'; [reflexivity|].
      rewrite length_map. symmetry. apply spans_length.
    + exact Hq.
    + apply arrivals_positive.
    + exact Hno.
Qed.

Lemma chunks_in_sequence_witness :
  audioQueue (client busy_world) = [0; 1]%nat /\
  no_overlap (spans busy_world).
Proof.
  assert (Hsteady : Forall steady
            [OnMessage (audio_message "AAAAAA==" false); Tick (1 # 10);
             OnMessage (audio_message "AAAAAAAA" false)]).
  { constructor; [split; [reflexivity|right; vm_compute; discriminate]|].
    constructor; [exact I|].
    constructor; [split; [reflexivity|right; vm_compute; discriminate]|].
    constructor. }
  assert (Hcursor : (0 <= nextStartTime (client active_world))%Q)
    by (vm_compute; discriminate).
  destruct (chunks_in_sequence _ active_world 1%nat Hsteady eq_refl Hcursor)
    as (_ & _ & Hq & _ & Hno).
  split; [exact Hq|exact Hno].
Defined.

(** *** The cursor is never negative *)

Lemma cursor_kept_refl (w : World) : cursor_kept w w.
Proof. intros H. exact H. Qed.

Lemma cursor_kept_trans (a b c : World) :
  cursor_kept a b -> cursor_kept b c -> cursor_kept a c.
Proof. unfold cursor_kept. auto. Qed.

Lemma schedule_cursor_kept (audioString : string) (ctx : nat) :
  keeps cursor_kept (schedule audioString ctx).
Proof.
  intros w Hcursor.
  destruct w as [[ic oc isrc proc cursor queue st]
                 [ctxs srcs caps sup mic strict notif reqs]].
  cbn [client nextStartTime] in Hcursor.
  pose proof (Q.le_max_l cursor match ctxs !! ctx with
                                | Some c => currentTime c
                                | None => 0%Q
                                end) as Hmax.
  unfold schedule. run_monad.
  destruct (decode audioString) as [bytes|e] eqn:Hb; run_monad; [|lra].
  destruct (decodeAudioData bytes 24000 1) as [audioBuffer|e] eqn:Hd;
    run_monad; [|lra].
  assert (Hpos : (0 < duration audioBuffer)%Q).
  { apply (decoded_positive audioString). unfold decoded. rewrite Hb. exact Hd. }
  rewrite update_at_last. unfold startSource. run_monad. rewrite lookup_last.
  match goal with
  | |- context [if ?c then _ else _] => destruct c
  end; run_monad; lra.
Qed.

Ltac cursor_prim :=
  let w := fresh "w" in
  let H := fresh "H" in
  intros w H; unfold_prims; unfold updateState, on_browser, on_client;
  repeat (cbn; match goal with
               | |- context [match ?x with _ => _ end] => destruct x
               end);
  first [exact H | apply Qle_refl].

Ltac cursor_auto :=
  keeps_struct cursor_kept_refl cursor_kept_trans;
  first [assumption | apply schedule_cursor_kept | cursor_prim].

Lemma stopAudioQueue_cursor_kept : keeps cursor_kept stopAudioQueue.
Proof. intros w _. rewrite stopAudioQueue_eq. apply Qle_refl. Qed.

Lemma dispatch_cursor_kept (ev : Event) : keeps cursor_kept (dispatch ev).
Proof.
  pose proof stopAudioQueue_cursor_kept.
  assert (keeps cursor_kept disconnect).
  { unfold disconnect. cursor_auto. }
  destruct ev; cbn [dispatch];
    unfold connect, onopen, startInputStream, onmessage, handleMessage,
           onclose, onerror, ended, onended, onaudioprocess;
    cursor_auto.
Qed.

(** In every world the session can reach, the cursor is not negative. *)
Lemma cursor_nonneg (events : list Event) :
  (0 <= nextStartTime (client (run events new_world)))%Q.
Proof.
  apply (keeps_run cursor_kept cursor_kept_refl cursor_kept_trans events
           dispatch_cursor_kept new_world).
  apply Qle_refl.
Qed.

(** ** SessionManager *)

Lemma disconnect_eq (w : World) : disconnect w = (Ok tt, torn_down w).
Proof.
  unfold disconnect, bind at 1. rewrite stopAudioQueue_eq.
  destruct w as [[ic oc isrc proc cursor queue st]
                 [ctxs srcs caps sup mic strict notif reqs]].
  unfold silenced, torn_down. run_monad.
  destruct isrc as [src|], proc as [p|], ic as [i|], oc as [o|];
    run_monad; reflexivity.
Qed.

Lemma unplug_twice (a b : option nat) (l : list CaptureNode) :
  unplug a (unplug b (unplug a (unplug b l))) = unplug a (unplug b l).
Proof.
  apply list_eq. intros j.
  destruct a as [p|], b as [q|]; cbn [unplug]; rewrite ?update_at_lookup;
    repeat match goal with
           | |- context [decide (?x = ?y)] => destruct (decide (x = y))
           end;
    destruct (l !! j) as [[c k]|]; reflexivity.
Qed.

Lemma unplug_lookup (a b : option nat) (l : list CaptureNode) (p : nat)
      (n : CaptureNode) :
  a = Some p \/ b = Some p ->
  l !! p = Some n ->
  unplug a (unplug b l) !! p = Some (unplugged n).
Proof.
  intros Hp Hn.
  destruct a as [x|], b as [y|]; cbn [unplug]; rewrite ?update_at_lookup;
    repeat match goal with
           | |- context [decide (?x = ?y)] => destruct (decide (x = y))
           end;
    rewrite ?Hn; try reflexivity;
    destruct Hp as [[=]|[=]]; congruence.
Qed.

Lemma close_lookup (a b : option nat) (l : list AudioContext) (i : nat)
      (c : AudioContext) :
  a = Some i \/ b = Some i ->
  l !! i = Some c ->
  close a (close b l) !! i = Some (shut c).
Proof.
  intros Hi Hc.
  destruct a as [x|], b as [y|]; cbn [close]; rewrite ?update_at_lookup;
    repeat match goal with
           | |- context [decide (?x = ?y)] => destruct (decide (x = y))
           end;
    rewrite ?Hc; try reflexivity;
    destruct Hi as [[=]|[=]]; congruence.
Qed.

Lemma capturing_torn_down (w : World) : capturing (torn_down w) = false.
Proof.
  unfold capturing, torn_down. cbn [client browser processor captureNodes].
  destruct (processor (client w)) as [p|]; [|reflexivity].
  cbn [unplug]. rewrite update_at_lookup.
  destruct (decide (p = p)); [|congruence].
  destruct (unplug (inputSource (client w)) (captureNodes (browser w)) !! p);
    reflexivity.
Qed.

(** C6. [disconnect] never raises.  It stops the capture loop (the source
    and the processor are disconnected), closes both audio contexts and
    drops the references to them, forces the playback interrupt (queued
    handles not playing, queue empty, cursor at zero) and leaves
    [isConnected] and [isSpeaking] false.  Called again, it changes neither
    the client nor the audio graph; the observer is handed the same
    snapshot once more. *)
Theorem disconnect_tears_down (w : World) :
  let w' := snd (disconnect w) in
  let w'' := snd (disconnect w') in
  fst (disconnect w) = Ok tt /\
  capturing w' = false /\
  (forall p, inputSource (client w) = Some p \/ processor (client w) = Some p ->
             is_connected (browser w') p = false) /\
  (forall ctx, inputContext (client w) = Some ctx \/ outputContext (client w) = Some ctx ->
               (ctx < length (contexts (browser w)))%nat ->
               is_closed (browser w') ctx = true) /\
  inputContext (client w') = None /\
  outputContext (client w') = None /\
  (forall h n, h ∈ audioQueue (client w) ->
               sources (browser w) !! h = Some n ->
               exists n', sources (browser w') !! h = Some n' /\ playing n' = false) /\
  audioQueue (client w') = [] /\
  nextStartTime (client w') = 0%Q /\
  isConnected (currentState (client w')) = false /\
  isSpeaking (currentState (client w')) = false /\
  error (currentState (client w')) = error (currentState (client w)) /\
  fst (disconnect w') = Ok tt /\
  client w'' = client w' /\
  contexts (browser w'') = contexts (browser w') /\
  sources (browser w'') = sources (browser w') /\
  captureNodes (browser w'') = captureNodes (browser w') /\
  requests (browser w'') = requests (browser w') /\
  notified (browser w'') = notified (browser w') ++ [currentState (client w')].
Proof.
  cbv zeta. rewrite !disconnect_eq. cbn [fst snd].
  split; [reflexivity|].
  split; [apply capturing_torn_down|].
  split.
  { intros p Hp. unfold is_connected, torn_down. cbn [browser captureNodes].
    destruct (captureNodes (browser w) !! p) as [n|] eqn:En.
    - rewrite (unplug_lookup _ _ _ p n) by tauto. reflexivity.
    - destruct (unplug (processor (client w))
                  (unplug (inputSource (client w)) (captureNodes (browser w))) !! p)
        as [n|] eqn:En'; [|reflexivity].
      exfalso. apply lookup_lt_Some in En'. apply lookup_ge_None in En.
      destruct (processor (client w)), (inputSource (client w));
        cbn [unplug] in En'; rewrite ?update_at_length in En'; lia. }
  split.
  { intros ctx Hctx Hlt. unfold is_closed, torn_down. cbn [browser contexts].
    destruct (lookup_lt_is_Some_2 _ _ Hlt) as (c & Hc).
    rewrite (close_lookup _ _ _ ctx c) by tauto. reflexivity. }
  split; [reflexivity|]. split; [reflexivity|].
  split.
  { intros h n Hin Hn. exists (halt n). split; [|apply playing_halt].
    unfold torn_down. cbn [browser sources].
    rewrite stop_all_lookup, Hn. cbn.
    rewrite bool_decide_eq_true_2 by exact Hin. reflexivity. }
  repeat split.
  all: unfold torn_down;
    cbn [client browser inputSource processor captureNodes contexts sources
         inputContext outputContext audioQueue close stop_all fold_left].
  all: try apply unplug_twice.
  all: destruct (currentState (client w)) as [conn sp err]; reflexivity.
Qed.

Lemma disconnect_tears_down_witness :
  is_connected (browser (snd (disconnect busy_world))) 1%nat = false /\
  is_closed (browser (snd (disconnect busy_world))) 1%nat = true /\
  exists n', sources (browser (snd (disconnect busy_world))) !! 0%nat = Some n'
             /\ playing n' = false.
Proof.
  destruct (disconnect_tears_down busy_world)
    as (_ & _ & H1 & H2 & _ & _ & H3 & _).
  split; [|split].
  - apply H1. right. reflexivity.
  - apply H2; [right; reflexivity|vm_compute; lia].
  - eapply (H3 0%nat); [|vm_compute; reflexivity].
    apply list_elem_of_In. vm_compute. left. reflexivity.
Defined.




(** * Further properties of LiveClient *)

(** ** Opening a session *)

Lemma connect_granted (w : World) (stream : nat) :
  audioSupport (browser w) = None ->
  microphone (browser w) = inr stream ->
  connect w = (Ok tt, session_requested w stream).
Proof.
  intros Hsup Hmic.
  destruct w as [[ic oc isrc proc cursor queue st]
                 [ctxs srcs caps sup mic strict notif reqs]].
  cbn [browser audioSupport microphone] in Hsup, Hmic. subst sup mic.
  unfold connect, newAudioContext, session_requested. run_monad.
  rewrite <- !app_assoc, length_app. cbn [length app].
  replace (length ctxs + 1)%nat with (S (length ctxs)) by lia.
  reflexivity.
Qed.

(** [connect] on a browser that constructs audio contexts and grants the
    microphone: it returns normally, clears [error] (one snapshot), creates
    two contexts of its own, the input one at 16 kHz and the output one at
    24 kHz, and leaves every context that existed as it was; it asks for the
    microphone once and for one session; it touches neither the scheduler
    nor the capture graph, and [isConnected] waits for the open
    acknowledgment. *)
Theorem connect_opens_session (w : World) (stream : nat) :
  audioSupport (browser w) = None ->
  microphone (browser w) = inr stream ->
  let w' := snd (connect w) in
  let n := length (contexts (browser w)) in
  let old := currentState (client w) in
  fst (connect w) = Ok tt /\
  contexts (browser w') =
    contexts (browser w)
    ++ [mkAudioContext 16000 0%Q false; mkAudioContext 24000 0%Q false] /\
  inputContext (client w') = Some n /\
  outputContext (client w') = Some (S n) /\
  requests (browser w') = requests (browser w) ++ [GetUserMedia; LiveConnect stream] /\
  currentState (client w') = mkState (isConnected old) (isSpeaking old) None /\
  notified (browser w') = notified (browser w) ++ [currentState (client w')] /\
  nextStartTime (client w') = nextStartTime (client w) /\
  audioQueue (client w') = audioQueue (client w) /\
  sources (browser w') = sources (browser w) /\
  captureNodes (browser w') = captureNodes (browser w) /\
  inputSource (client w') = inputSource (client w) /\
  processor (client w') = processor (client w).
Proof.
  intros Hsup Hmic. cbv zeta.
  rewrite (connect_granted w stream Hsup Hmic).
  cbn [fst snd session_requested client browser].
  destruct (currentState (client w)) as [conn sp err]. repeat split.
Qed.

Lemma connect_opens_session_witness :
  inputContext (client (snd (connect new_world))) = Some 0%nat /\
  outputContext (client (snd (connect new_world))) = Some 1%nat /\
  requests (browser (snd (connect new_world))) = [GetUserMedia; LiveConnect 0%nat].
Proof.
  destruct (connect_opens_session new_world 0%nat eq_refl eq_refl)
    as (_ & _ & H1 & H2 & H3 & _).
  split; [exact H1|]. split; [exact H2|exact H3].
Defined.

(** [connect] has no guard against a session that is already being opened:
    called twice in a row it asks for two sessions and holds the second
    pair of contexts, while the first pair stays open with no reference
    left to close it. *)
Theorem connect_twice_leaks (w : World) (stream : nat) :
  audioSupport (browser w) = None ->
  microphone (browser w) = inr stream ->
  let w2 := snd (connect (snd (connect w))) in
  let n := length (contexts (browser w)) in
  requests (browser w2) =
    requests (browser w)
    ++ [GetUserMedia; LiveConnect stream; GetUserMedia; LiveConnect stream] /\
  inputContext (client w2) = Some (S (S n)) /\
  outputContext (client w2) = Some (S (S (S n))) /\
  is_closed (browser w2) n = false /\
  is_closed (browser w2) (S n) = false /\
  is_closed (browser (snd (disconnect w2))) n = false /\
  is_closed (browser (snd (disconnect w2))) (S n) = false /\
  is_closed (browser (snd (disconnect w2))) (S (S n)) = true /\
  is_closed (browser (snd (disconnect w2))) (S (S (S n))) = true.
Proof.
  intros Hsup Hmic. cbv zeta.
  rewrite (connect_granted w stream Hsup Hmic). cbn [snd].
  rewrite (connect_granted (session_requested w stream) stream Hsup Hmic).
  rewrite disconnect_eq. cbn [snd].
  destruct w as [[ic oc isrc proc cursor queue st]
                 [l srcs caps sup mic strict notif reqs]].
  unfold is_closed, torn_down, session_requested.
  cbn [client browser contexts requests inputContext outputContext close].
  set (a := mkAudioContext 16000 0%Q false).
  set (b := mkAudioContext 24000 0%Q false).
  rewrite <- !app_assoc, !length_app. cbn [length app].
  replace (length l + 2)%nat with (S (S (length l))) by lia.
  assert (L0 : (l ++ [a; b; a; b]) !! length l = Some a).
  { rewrite lookup_app_r by lia. rewrite Nat.sub_diag. reflexivity. }
  assert (L1 : (l ++ [a; b; a; b]) !! S (length l) = Some b).
  { rewrite lookup_app_r by lia.
    replace (S (length l) - length l)%nat with 1%nat by lia. reflexivity. }
  assert (L2 : (l ++ [a; b; a; b]) !! S (S (length l)) = Some a).
  { rewrite lookup_app_r by lia.
    replace (S (S (length l)) - length l)%nat with 2%nat by lia. reflexivity. }
  assert (L3 : (l ++ [a; b; a; b]) !! S (S (S (length l))) = Some b).
  { rewrite lookup_app_r by lia.
    replace (S (S (S (length l))) - length l)%nat with 3%nat by lia. reflexivity. }
  rewrite !update_at_lookup.
  repeat match goal with
         | |- context [decide (?x = ?y)] =>
             destruct (decide (x = y)); try lia
         end.
  rewrite L0, L1, L2, L3. repeat split.
Qed.

Lemma connect_twice_leaks_witness :
  is_closed (browser (snd (disconnect (snd (connect (snd (connect new_world))))))) 0%nat = false /\
  is_closed (browser (snd (disconnect (snd (connect (snd (connect new_world))))))) 2%nat = true.
Proof.
  destruct (connect_twice_leaks new_world 0%nat eq_refl eq_refl)
    as (_ & _ & _ & _ & _ & H1 & _ & H2 & _).
  split; [exact H1|exact H2].
Defined.

(** The open acknowledgment on a client that holds an open input context:
    [isConnected] becomes true and the capture loop starts, on a media
    stream source and a script processor created in that context and both
    connected; nothing is requested and the other two fields of the state
    are kept. *)
Theorem onopen_starts_capture (w : World) (stream ctx : nat) (c : AudioContext) :
  inputContext (client w) = Some ctx ->
  contexts (browser w) !! ctx = Some c ->
  closed c = false ->
  let w' := snd (onopen stream w) in
  let n := length (captureNodes (browser w)) in
  fst (onopen stream w) = Ok tt /\
  isConnected (currentState (client w')) = true /\
  isSpeaking (currentState (client w')) = isSpeaking (currentState (client w)) /\
  error (currentState (client w')) = error (currentState (client w)) /\
  capturing w' = true /\
  inputSource (client w') = Some n /\
  processor (client w') = Some (S n) /\
  captureNodes (browser w') =
    captureNodes (browser w) ++ [mkCaptureNode ctx true; mkCaptureNode ctx true] /\
  requests (browser w') = requests (browser w).
Proof.
  intros Hic Hc Hopen. cbv zeta.
  destruct w as [[ic oc isrc proc cursor queue st]
                 [ctxs srcs caps sup mic strict notif reqs]].
  cbn [client browser inputContext contexts] in Hic, Hc. subst ic.
  unfold onopen, startInputStream. run_monad.
  assert (Hnodes :
    update_at (S (length caps)) (fun n => mkCaptureNode (nodeContext n) true)
      (update_at (length caps) (fun n => mkCaptureNode (nodeContext n) true)
         ((caps ++ [mkCaptureNode ctx false]) ++ [mkCaptureNode ctx false]))
    = caps ++ [mkCaptureNode ctx true; mkCaptureNode ctx true]).
  { apply list_eq. intros j. rewrite !update_at_lookup, <- app_assoc. cbn [app].
    destruct (decide (S (length caps) = j)) as [<-|H1];
      [|destruct (decide (length caps = j)) as [<-|H2]].
    - destruct (decide (length caps = S (length caps))); [lia|].
      rewrite !lookup_app_r by lia.
      replace (S (length caps) - length caps)%nat with 1%nat by lia. reflexivity.
    - rewrite !lookup_app_r by lia. rewrite Nat.sub_diag. reflexivity.
    - destruct (decide (j < length caps)%nat).
      + rewrite !lookup_app_l by lia. reflexivity.
      + rewrite !lookup_app_r by lia.
        destruct (j - length caps)%nat as [|[|k]] eqn:E; try lia. reflexivity. }
  rewrite length_app. cbn [length].
  replace (length caps + 1)%nat with (S (length caps)) by lia.
  rewrite Hnodes.
  repeat split.
  unfold capturing. record_simpl.
  rewrite lookup_app_r by lia.
  replace (S (length caps) - length caps)%nat with 1%nat by lia.
  cbn. rewrite Hc, Hopen. reflexivity.
Qed.

Lemma onopen_starts_capture_witness :
  capturing (snd (onopen 0%nat (snd (connect new_world)))) = true.
Proof.
  exact (proj1 (proj2 (proj2 (proj2 (proj2
    (onopen_starts_capture (snd (connect new_world)) 0%nat 0%nat
       (mkAudioContext 16000 0%Q false) eq_refl eq_refl eq_refl)))))).
Defined.

(** An open acknowledgment that arrives after [disconnect]: the guard of
    [startInputStream] keeps the capture graph as it is, nothing captures
    and both contexts stay released, yet [isConnected] is set to true. *)
Theorem onopen_after_disconnect (w : World) (stream : nat) :
  let w1 := snd (disconnect w) in
  let w' := snd (onopen stream w1) in
  fst (onopen stream w1) = Ok tt /\
  isConnected (currentState (client w')) = true /\
  capturing w' = false /\
  inputContext (client w') = None /\
  outputContext (client w') = None /\
  captureNodes (browser w') = captureNodes (browser w1) /\
  requests (browser w') = requests (browser w).
Proof.
  cbv zeta. rewrite disconnect_eq. cbn [snd].
  pose proof (capturing_torn_down w) as Hcap.
  unfold onopen, startInputStream, bind, gets, updateState, ret.
  cbn [fst snd]. unfold on_client, on_browser. cbn [client browser torn_down
    inputContext].
  repeat split. exact Hcap.
Qed.

(** ** Capture *)

(** The capture callback never raises, whatever the samples: it sends
    exactly one block, labelled as 16 kHz PCM, whose payload decodes to the
    16-bit little-endian bytes of the scaled samples, two per sample; it
    changes nothing else. *)
Theorem onaudioprocess_sends_block (inputData : list Q) (w : World) :
  let w' := snd (onaudioprocess inputData w) in
  let pcm := bytes_of_int16s (map (fun x => ToInt16 (x * 32768)) inputData) in
  fst (onaudioprocess inputData w) = Ok tt /\
  (exists payload,
     requests (browser w') =
       requests (browser w)
       ++ [SendRealtimeInput (mkBlob payload "audio/pcm;rate=16000")] /\
     decode payload = Ok pcm) /\
  length pcm = (2 * length inputData)%nat /\
  client w' = client w /\
  contexts (browser w') = contexts (browser w) /\
  sources (browser w') = sources (browser w) /\
  captureNodes (browser w') = captureNodes (browser w) /\
  notified (browser w') = notified (browser w).
Proof.
  cbv zeta.
  set (pcm := bytes_of_int16s (map (fun x => ToInt16 (x * 32768)) inputData)).
  destruct (binary_of_bytes pcm) as (Hbin & Hoct).
  destruct (atob_btoa _ Hoct) as (s & Hs & Hd).
  assert (Hblob : createBlob inputData = Ok (mkBlob s "audio/pcm;rate=16000")).
  { unfold createBlob, encode. fold pcm. rewrite Hbin, Hs. reflexivity. }
  unfold onaudioprocess, bind, liftR, sendRealtimeInput, modify.
  rewrite Hblob. cbn [fst snd]. unfold on_browser, with_requests.
  cbn [client browser requests contexts sources captureNodes notified].
  split; [reflexivity|]. split.
  { exists s. split; [reflexivity|].
    unfold decode. rewrite Hd. cbn [bindR]. rewrite bytes_of_binary. reflexivity. }
  split.
  { unfold pcm. rewrite length_bytes_of_int16s, length_map. reflexivity. }
  repeat split.
Qed.

(** ** Decoding inbound audio *)


Lemma length_int16s_of_bytes (data : list byte) :
  length (int16s_of_bytes data) = Nat.div2 (length data).
Proof.
  assert (H : forall n (l : list byte), (length l <= n)%nat ->
            length (int16s_of_bytes l) = Nat.div2 (length l)).
  { induction n as [|n IH]; intros l Hl.
    - destruct l; [reflexivity|cbn in Hl; lia].
    - destruct l as [|lo [|hi rest]]; try reflexivity.
      cbn [int16s_of_bytes length Nat.div2]. f_equal.
      apply IH. cbn [length] in Hl. lia. }
  exact (H (length data) data (le_n _)).
Qed.

(** What [decodeAudioData] refuses: a byte buffer of odd length cannot be
    viewed as 16-bit samples ([RangeError]); one that holds less than one
    frame, the empty buffer included, or a channel count or rate that is
    not positive, is refused by [createBuffer] ([NotSupportedError]). *)
Theorem decodeAudioData_rejects (data : list byte) (rate numChannels : Z) :
  (Nat.odd (length data) = true ->
   decodeAudioData data rate numChannels = Throw RangeError) /\
  (Nat.odd (length data) = false ->
   numChannels <= 0 \/ rate <= 0 \/
   Z.of_nat (Nat.div2 (length data)) < numChannels ->
   decodeAudioData data rate numChannels = Throw NotSupportedError).
Proof.
  unfold decodeAudioData. split; intros Hodd; rewrite Hodd; [reflexivity|].
  intros Hbad. rewrite length_int16s_of_bytes. unfold createBuffer.
  pose proof (Nat2Z.is_nonneg (Nat.div2 (length data))) as Hnn.
  set (L := Z.of_nat (Nat.div2 (length data))) in *. clearbody L.
  assert (Htest : (numChannels <=? 0) || (L / numChannels <=? 0)
                  || (rate <=? 0) = true).
  { apply orb_true_iff.
    destruct (Z.leb_spec rate 0) as [|Hrate]; [right; reflexivity|left].
    apply orb_true_iff.
    destruct (Z.leb_spec numChannels 0) as [|Hnc]; [left; reflexivity|right].
    apply Z.leb_le.
    destruct Hbad as [H|[H|H]]; try lia.
    rewrite Z.div_small; lia. }
  rewrite Htest. reflexivity.
Qed.

Lemma decodeAudioData_rejects_witness :
  decodeAudioData [x00; x01; x02] 24000 1 = Throw RangeError /\
  decodeAudioData [] 24000 1 = Throw NotSupportedError.
Proof.
  split.
  - apply (proj1 (decodeAudioData_rejects [x00; x01; x02] 24000 1)). reflexivity.
  - apply (proj2 (decodeAudioData_rejects [] 24000 1)); [reflexivity|].
    right. right. cbn. lia.
Defined.




(** ** Messages that schedule nothing *)

(** A message without the interruption flag that carries no audio, or an
    empty audio string, or that arrives when the client holds no output
    context (before [connect], after [disconnect]), is a no-op: nothing is
    scheduled, no state is pushed, nothing raises. *)
Theorem handleMessage_ignores (message : LiveServerMessage) (w : World) :
  interrupted_of message = false ->
  audioString_of message = None \/
  audioString_of message = Some ""%string \/
  outputContext (client w) = None ->
  handleMessage message w = (Ok tt, w).
Proof.
  intros Hflag Hcase. rewrite handleMessage_unfold, Hflag.
  destruct Hcase as [->|[->|Hctx]]; try reflexivity.
  - destruct (outputContext (client w)); reflexivity.
  - rewrite Hctx. destruct (audioString_of message); reflexivity.
Qed.

Lemma handleMessage_ignores_witness :
  handleMessage (audio_message "AAAAAA==" false) (snd (disconnect busy_world))
  = (Ok tt, snd (disconnect busy_world)).
Proof.
  apply handleMessage_ignores; [reflexivity|].
  right. right. reflexivity.
Defined.

(** A payload that does not decode (not base64, an odd number of bytes, no
    bytes at all): [handleMessage] raises the decoder's error after it has
    pushed [isSpeaking = true] and moved the cursor up to the device time;
    no source is created and the queue is kept, and an interruption flag on
    the same message is not acted upon. *)
Theorem handleMessage_undecodable (message : LiveServerMessage) (w : World)
        (audioString : string) (ctx : nat) (e : Exn) :
  audioString_of message = Some audioString ->
  truthy audioString = true ->
  outputContext (client w) = Some ctx ->
  decoded audioString = Throw e ->
  let w' := snd (handleMessage message w) in
  let up := spread (currentState (client w)) (speaking true) in
  fst (handleMessage message w) = Throw e /\
  currentState (client w') = up /\
  isSpeaking (currentState (client w')) = true /\
  notified (browser w') = notified (browser w) ++ [up] /\
  nextStartTime (client w') =
    Qmax (nextStartTime (client w)) (timeOf (browser w) ctx) /\
  sources (browser w') = sources (browser w) /\
  audioQueue (client w') = audioQueue (client w).
Proof.
  intros Hs Ht Hctx Hd. cbv zeta.
  rewrite handleMessage_unfold, Hs, Hctx, Ht.
  destruct w as [[ic oc isrc proc cursor queue st]
                 [ctxs srcs caps sup mic strict notif reqs]].
  unfold decoded in Hd. unfold schedule. run_monad.
  destruct (decode audioString) as [bytes|e1]; cbn [bindR] in Hd; run_monad.
  - rewrite Hd. run_monad. repeat split.
  - injection Hd as <-. repeat split.
Qed.

Lemma handleMessage_undecodable_witness :
  fst (handleMessage (audio_message "AAAA" true) busy_world) = Throw RangeError /\
  audioQueue (client (snd (handleMessage (audio_message "AAAA" true) busy_world)))
  = [0; 1]%nat.
Proof.
  destruct (handleMessage_undecodable (audio_message "AAAA" true) busy_world
              "AAAA" 1%nat RangeError eq_refl eq_refl eq_refl eq_refl)
    as (H1 & _ & _ & _ & _ & _ & H2).
  split; [exact H1|exact H2].
Defined.

(** ** The end of a source *)

(** The [ended] listener after one chunk: a chunk is scheduled, time passes
    on the open output context, the source ends.  [isSpeaking] is then
    false when the device clock has reached the cursor and still true when
    it has not (a later chunk is pending, or the source was cut short);
    the handle stays in the queue and the cursor is kept. *)
Theorem ended_clears_speaking (message : LiveServerMessage) (w : World)
        (ctx : nat) (c : AudioContext) (audioBuffer : AudioBuffer) (dt : Q) :
  chunk_of message = Some audioBuffer ->
  interrupted_of message = false ->
  outputContext (client w) = Some ctx ->
  contexts (browser w) !! ctx = Some c ->
  closed c = false ->
  (0 <= nextStartTime (client w))%Q ->
  let h := length (sources (browser w)) in
  let cursor := (Qmax (nextStartTime (client w)) (currentTime c) + duration audioBuffer)%Q in
  let w' := run [OnMessage message; Tick dt; Ended h] w in
  isSpeaking (currentState (client w')) = negb (Qle_bool cursor (currentTime c + dt)) /\
  nextStartTime (client w') = cursor /\
  audioQueue (client w') = audioQueue (client w) ++ [h] /\
  sources (browser w') !! h =
    Some (mkSourceNode (Some audioBuffer)
            (Qmax (nextStartTime (client w)) (currentTime c)) Finished).
Proof.
  intros Hchunk Hflag Hctx Hc Hopen Hcursor. cbv zeta.
  assert (E : run [OnMessage message; Tick dt; Ended (length (sources (browser w)))] w
              = snd (ended (length (sources (browser w)))
                       (snd (tick dt (scheduled w ctx audioBuffer))))).
  { unfold run. cbn [fold_left]. unfold step. cbn [dispatch]. unfold onmessage.
    rewrite (handleMessage_chunk _ _ _ _ Hchunk Hctx Hcursor), Hflag. reflexivity. }
  rewrite E. clear E.
  destruct w as [[ic oc isrc proc cursor queue st]
                 [ctxs srcs caps sup mic strict notif reqs]].
  cbn [client browser outputContext contexts nextStartTime sources] in *.
  subst oc.
  unfold tick, ended, onended, scheduled. run_monad.
  rewrite update_at_last. cbn [playback buffer startAt].
  rewrite Hc, list_lookup_fmap, Hc. cbn [fmap option_fmap option_map].
  rewrite Hopen. cbn [currentTime].
  destruct (Qle_bool (Qmax cursor (currentTime c) + duration audioBuffer)
                     (currentTime c + dt)); cbn beta iota; run_monad;
    repeat split; apply lookup_last.
Qed.

Lemma ended_clears_speaking_witness :
  isSpeaking (currentState (client
    (run [OnMessage (audio_message "AAAAAA==" false); Tick 1; Ended 0%nat]
         active_world))) = false.
Proof.
  assert (H : (0 <= nextStartTime (client active_world))%Q)
    by (vm_compute; discriminate).
  exact (proj1 (ended_clears_speaking (audio_message "AAAAAA==" false)
                  active_world 1%nat (mkAudioContext 24000 (1 # 2) false) _ 1%Q
                  eq_refl eq_refl eq_refl eq_refl eq_refl H)).
Defined.

(** ** Invariants of the session *)

Lemma playback_kept_refl (w : World) : playback_kept w w.
Proof. split; reflexivity. Qed.

Lemma playback_kept_trans (a b c : World) :
  playback_kept a b -> playback_kept b c -> playback_kept a c.
Proof. intros (H1 & H2) (H3 & H4). split; congruence. Qed.

Ltac playback_prim :=
  let w := fresh "w" in
  intros w; unfold_prims; unfold updateState, on_browser, on_client;
  repeat (cbn; match goal with
               | |- context [match ?x with _ => _ end] => destruct x
               end);
  split; reflexivity.

Ltac playback_auto :=
  keeps_struct playback_kept_refl playback_kept_trans;
  first [assumption | playback_prim].

Lemma queue_launched_kept (w w' : World) :
  playback_kept w w' -> queue_launched w = true -> queue_launched w' = true.
Proof. intros (H1 & H2). unfold queue_launched. rewrite H1, H2. auto. Qed.

Lemma queue_launched_grow (w w' : World) (extra : list SourceNode) :
  sources (browser w') = sources (browser w) ++ extra ->
  audioQueue (client w') = audioQueue (client w) ->
  queue_launched w = true -> queue_launched w' = true.
Proof.
  intros Hs Hq. unfold queue_launched. rewrite Hs, Hq, !forallb_forall.
  intros H h Hin. specialize (H h Hin).
  destruct (sources (browser w) !! h) as [n|] eqn:E; [|discriminate].
  rewrite (lookup_app_l_Some _ _ _ _ E). exact H.
Qed.

(** What [schedule] does to the sources and the queue, whether it returns
    or throws: the sources that existed are untouched; either the queue is
    untouched, or the chunk was scheduled. *)
Lemma schedule_frame (audioString : string) (ctx : nat) (w : World) :
  let w' := snd (schedule audioString ctx w) in
  (exists audioBuffer, w' = scheduled w ctx audioBuffer) \/
  (audioQueue (client w') = audioQueue (client w) /\
   exists extra, sources (browser w') = sources (browser w) ++ extra).
Proof.
  cbv zeta.
  destruct (schedule_cases audioString ctx w)
    as [(b & _ & _ & ->)|(e & w1 & Hs & Hwhy)].
  { left. exists b. reflexivity. }
  right. revert Hs Hwhy.
  destruct w as [[ic oc isrc proc cursor queue st]
                 [ctxs srcs caps sup mic strict notif reqs]].
  unfold schedule, decoded. run_monad.
  destruct (decode audioString) as [bytes|e1]; cbn [bindR]; run_monad.
  2:{ intros _ _. split; [reflexivity|]. exists []. rewrite app_nil_r. reflexivity. }
  destruct (decodeAudioData bytes 24000 1) as [audioBuffer|e1]; run_monad.
  2:{ intros _ _. split; [reflexivity|]. exists []. rewrite app_nil_r. reflexivity. }
  rewrite update_at_last. unfold startSource. run_monad. rewrite lookup_last.
  match goal with
  | |- context [if ?c then _ else _] => destruct c
  end; run_monad.
  - intros _ _. split; [reflexivity|]. eexists. reflexivity.
  - intros [=].
Qed.

Lemma dispatch_queue_launched (ev : Event) (w : World) :
  queue_launched w = true -> queue_launched (step w ev) = true.
Proof.
  intros Hq. unfold step.
  assert (Hdisc : queue_launched (snd (disconnect w)) = true).
  { rewrite disconnect_eq. reflexivity. }
  destruct ev; cbn [dispatch].
  - apply (queue_launched_kept w); [|exact Hq].
    assert (H : keeps playback_kept (tick dt))
      by (unfold tick; playback_auto). apply H.
  - apply (queue_launched_kept w); [|exact Hq].
    assert (H : keeps playback_kept connect)
      by (unfold connect; playback_auto). apply H.
  - exact Hdisc.
  - apply (queue_launched_kept w); [|exact Hq].
    assert (H : keeps playback_kept (onopen stream))
      by (unfold onopen, startInputStream; playback_auto). apply H.
  - unfold onmessage. rewrite handleMessage_unfold.
    assert (Hsched : forall s ctx,
              queue_launched (snd (schedule s ctx w)) = true).
    { intros s ctx.
      destruct (schedule_frame s ctx w) as [(b & ->)|(Hq' & extra & Hs)].
      - unfold queue_launched, scheduled in *. cbn [client browser audioQueue sources].
        rewrite forallb_app. apply andb_true_iff. split.
        + rewrite forallb_forall in *. intros h Hin. specialize (Hq h Hin).
          destruct (sources (browser w) !! h) as [n|] eqn:E; [|discriminate].
          rewrite (lookup_app_l_Some _ _ _ _ E). exact Hq.
        + cbn [forallb]. rewrite lookup_last. reflexivity.
      - exact (queue_launched_grow w _ extra Hs Hq' Hq). }
    assert (Hmid : forall r w1,
              match audioString_of message, outputContext (client w) with
              | Some audioString, Some ctx =>
                  if truthy audioString then schedule audioString ctx w
                  else (Ok tt, w)
              | _, _ => (Ok tt, w)
              end = (r, w1) -> queue_launched w1 = true).
    { intros r w1.
      destruct (audioString_of message) as [s|];
        [destruct (outputContext (client w)) as [ctx|];
         [destruct (truthy s)|]|];
        try (intros [= <- <-]; exact Hq).
      intros E. specialize (Hsched s ctx). rewrite E in Hsched. exact Hsched. }
    destruct (match audioString_of message, outputContext (client w) with
              | Some audioString, Some ctx =>
                  if truthy audioString then schedule audioString ctx w
                  else (Ok tt, w)
              | _, _ => (Ok tt, w)
              end) as [[[]|e] w1] eqn:E; cbn [snd];
      [|exact (Hmid _ _ eq_refl)].
    destruct (interrupted_of message); [reflexivity|exact (Hmid _ _ eq_refl)].
  - exact Hdisc.
  - unfold onerror, bind. cbn [updateState fst snd]. rewrite disconnect_eq.
    reflexivity.
  - destruct w as [[ic oc isrc proc cursor queue st]
                   [ctxs srcs caps sup mic strict notif reqs]].
    assert (Hsrc : queue_launched
              (mkWorld (mkClient ic oc isrc proc cursor queue st)
                 (mkBrowser ctxs
                    (update_at source
                       (fun n => match playback n with
                                 | Scheduled => mkSourceNode (buffer n) (startAt n) Finished
                                 | _ => n
                                 end) srcs)
                    caps sup mic strict notif reqs)) = true).
    { unfold queue_launched in *. cbn [client browser audioQueue sources] in *.
      rewrite forallb_forall in *. intros h Hin. specialize (Hq h Hin).
      rewrite update_at_lookup.
      destruct (decide (source = h)); destruct (srcs !! h) as [[b s pl]|];
        try discriminate; try exact Hq.
      cbn. destruct b, pl; cbn in *; congruence. }
    revert Hsrc. unfold ended, onended. run_monad.
    destruct oc as [ctx|]; run_monad; [|auto].
    match goal with
    | |- context [if ?c then _ else _] => destruct c
    end; run_monad; auto.
  - destruct (capturing w); [|exact Hq].
    apply (queue_launched_kept w); [|exact Hq].
    assert (H : keeps playback_kept (onaudioprocess inputData))
      by (unfold onaudioprocess; playback_auto). apply H.
Qed.

(** Whatever has happened to the session, every handle in the playback
    queue refers to a source that exists, has its buffer and has been
    started: [stop] is never called on a source it must refuse as never
    started, and no handle dangles. *)
Theorem queue_holds_launched_sources (events : list Event) :
  queue_launched (run events new_world) = true.
Proof.
  assert (H : forall w, queue_launched w = true ->
                        queue_launched (run events w) = true).
  { unfold run. induction events as [|ev events IH]; intros w Hw; [exact Hw|].
    cbn [fold_left]. apply IH, dispatch_queue_launched, Hw. }
  apply H. reflexivity.
Qed.




















(** * Properties of the components *)

(** ** LiveCommand *)

Lemma merge_snapshot (prev newState : LiveClientState) : merge prev newState = newState.
Proof. destruct newState. reflexivity. Qed.

Lemma fold_merge (snapshots : list LiveClientState) (init : LiveClientState) :
  fold_left merge snapshots init = List.last snapshots init.
Proof.
  revert init. induction snapshots as [|s l IH]; intros init; [reflexivity|].
  cbn [fold_left]. rewrite IH, merge_snapshot.
  destruct l as [|s2 l2]; [reflexivity|].
  change (List.last (s :: s2 :: l2) init) with (List.last (s2 :: l2) init).
  apply last_cons_default.
Qed.

Lemma pushed_mirror (w w' : World) :
  pushed w w' ->
  panel_state w = currentState (client w) ->
  panel_state w' = currentState (client w').
Proof.
  intros (snapshots & Hn & Hs) Hmirror. unfold panel_state in *.
  rewrite Hn, fold_left_app, Hmirror, Hs. apply fold_merge.
Qed.

Lemma panel_step_pushed (w : World) (pev : PanelEvent) :
  pushed w (panel_step w pev).
Proof.
  destruct pev; cbn [panel_step].
  - unfold toggleConnection. destruct (isConnected (panel_state w)).
    + apply disconnect_pushed.
    + apply (dispatch_pushed Connect).
  - apply disconnect_pushed.
  - apply dispatch_pushed.
Qed.

Lemma panel_step_session (w : World) (pev : PanelEvent) :
  panel_step w pev = step w (as_session_event w pev).
Proof.
  destruct pev; cbn [panel_step as_session_event]; try reflexivity.
  unfold toggleConnection. destruct (isConnected (panel_state w)); reflexivity.
Qed.

(** The state LiveCommand renders is always the state its client holds,
    whatever the user and the browser have done since the panel was
    mounted; so the button disconnects exactly when the client's own state
    says connected and connects otherwise, and every history of the panel
    is a history of session events. *)
Theorem panel_mirrors_client (pevents : list PanelEvent) :
  let w := panel_run pevents new_world in
  panel_state w = currentState (client w) /\
  toggleConnection w =
    (if isConnected (currentState (client w)) then disconnect w else connect w) /\
  exists events, w = run events new_world.
Proof.
  cbv zeta.
  assert (H : forall w0,
            panel_state w0 = currentState (client w0) ->
            (exists events, w0 = run events new_world) ->
            panel_state (panel_run pevents w0)
            = currentState (client (panel_run pevents w0)) /\
            exists events, panel_run pevents w0 = run events new_world).
  { unfold panel_run. induction pevents as [|pev l IH]; intros w0 Hm Hr.
    - split; assumption.
    - cbn [fold_left]. apply IH.
      + exact (pushed_mirror _ _ (panel_step_pushed w0 pev) Hm).
      + destruct Hr as (events & ->).
        exists (events ++ [as_session_event (run events new_world) pev]).
        rewrite panel_step_session. unfold run. rewrite fold_left_app. reflexivity. }
  destruct (H new_world eq_refl (ex_intro _ [] eq_refl)) as (Hm & Hr).
  split; [exact Hm|]. split; [|exact Hr].
  unfold toggleConnection. rewrite Hm. reflexivity.
Qed.

(** ** Analytics *)

Import Dashboard.

Lemma get_set_same (stats : Stats) (key : string) (v : Z) :
  get (set stats key v) key = Some v.
Proof.
  induction stats as [|[k v0] rest IH]; cbn [set get].
  - rewrite String.eqb_refl. reflexivity.
  - destruct (String.eqb key k) eqn:E; cbn [get]; rewrite E; [reflexivity|exact IH].
Qed.

Lemma get_set_other (stats : Stats) (key key' : string) (v : Z) :
  key' <> key -> get (set stats key v) key' = get stats key'.
Proof.
  intros Hne. induction stats as [|[k v0] rest IH]; cbn [set get].
  - destruct (String.eqb_spec key' key); [contradiction|reflexivity].
  - destruct (String.eqb_spec key k) as [->|Hk]; cbn [get].
    + destruct (String.eqb_spec key' k); [contradiction|reflexivity].
    + destruct (String.eqb key' k); [reflexivity|exact IH].
Qed.

Lemma keys_set (stats : Stats) (key : string) (v : Z) :
  map fst (set stats key v) =
  match get stats key with
  | Some _ => map fst stats
  | None => map fst stats ++ [key]
  end.
Proof.
  induction stats as [|[k v0] rest IH]; cbn [set get map fst app]; [reflexivity|].
  destruct (String.eqb key k) eqn:E; cbn [map fst]; [reflexivity|].
  rewrite IH. destruct (get rest key); reflexivity.
Qed.

Lemma get_None_keys (stats : Stats) (key : string) :
  get stats key = None <-> ~ In key (map fst stats).
Proof.
  induction stats as [|[k v0] rest IH]; cbn [get map fst In]; [tauto|].
  destruct (String.eqb_spec key k) as [->|Hne].
  - split; [discriminate|]. intros H. exfalso. apply H. left. reflexivity.
  - rewrite IH. split.
    + intros H [Hk|Hin]; [congruence|contradiction].
    + intros H Hin. apply H. right. exact Hin.
Qed.

Lemma set_NoDup (stats : Stats) (key : string) (v : Z) :
  List.NoDup (map fst stats) -> List.NoDup (map fst (set stats key v)).
Proof.
  intros Hnd. rewrite keys_set.
  destruct (get stats key) eqn:E; [exact Hnd|].
  apply get_None_keys in E.
  apply List.NoDup_app.
  - exact Hnd.
  - constructor; [intros []|constructor].
  - intros x Hx [<-|[]]. contradiction.
Qed.

Lemma sum_set (stats : Stats) (key : string) (v : Z) :
  sum_stats (set stats key v) = sum_stats stats - or_zero (get stats key) + v.
Proof.
  induction stats as [|[k v0] rest IH]; cbn [set get sum_stats fold_right snd or_zero].
  - lia.
  - destruct (String.eqb key k); cbn [sum_stats fold_right snd or_zero].
    + lia.
    + fold (sum_stats (set rest key v)). fold (sum_stats rest). rewrite IH. lia.
Qed.

Lemma tally_NoDup (weight : ConflictEvent -> Z) (events : list ConflictEvent) :
  forall stats, List.NoDup (map fst stats) ->
                List.NoDup (map fst (tally weight events stats)).
Proof.
  unfold tally. induction events as [|e events IH]; intros stats Hnd; [exact Hnd|].
  cbn [fold_left]. apply IH, set_NoDup, Hnd.
Qed.

Lemma tally_sum (weight : ConflictEvent -> Z) (events : list ConflictEvent) :
  forall stats, sum_stats (tally weight events stats)
                = sum_stats stats + sum_of weight events.
Proof.
  unfold tally. induction events as [|e events IH]; intros stats;
    cbn [fold_left sum_of fold_right]; [lia|].
  rewrite IH, sum_set. fold (sum_of weight events). lia.
Qed.

Lemma tally_get (weight : ConflictEvent -> Z) (events : list ConflictEvent)
      (key : string) :
  forall stats,
    get (tally weight events stats) key =
    match get stats key, with_name key events with
    | None, [] => None
    | o, l => Some (or_zero o + sum_of weight l)
    end.
Proof.
  unfold tally, with_name.
  induction events as [|e events IH]; intros stats; cbn [fold_left List.filter].
  - destruct (get stats key) as [v|]; cbn [or_zero sum_of fold_right]; [|reflexivity].
    f_equal. lia.
  - rewrite IH.
    destruct (String.eqb_spec (type_name (type e)) key) as [<-|Hne].
    + rewrite get_set_same. cbn [or_zero sum_of fold_right].
      fold (sum_of weight
              (List.filter (fun e0 => String.eqb (type_name (type e0))
                                                 (type_name (type e))) events)).
      destruct (get stats (type_name (type e))) as [v|]; cbn [or_zero];
        destruct (List.filter _ events); f_equal; cbn [sum_of fold_right]; lia.
    + rewrite get_set_other by congruence. reflexivity.
Qed.

Lemma In_entries (stats : Stats) (key : string) (v : Z) :
  In (mkStat key v) (entries stats) <-> get stats key = Some v.
Proof.
  unfold entries. rewrite in_map_iff. split.
  - intros (k & [= -> <-] & Hin).
    destruct (get stats key) as [v0|] eqn:E; [reflexivity|].
    apply get_None_keys in E. contradiction.
  - intros Hget. exists key. split.
    + rewrite Hget. reflexivity.
    + destruct (in_dec string_dec key (map fst stats)) as [Hin|Hout]; [exact Hin|].
      apply get_None_keys in Hout. congruence.
Qed.

Lemma names_entries (stats : Stats) : map name (entries stats) = map fst stats.
Proof.
  unfold entries. rewrite map_map. cbn [name]. apply map_id.
Qed.

Lemma sum_entries (stats : Stats) :
  List.NoDup (map fst stats) -> sum_values (entries stats) = sum_stats stats.
Proof.
  unfold entries.
  assert (H : forall (rest all : Stats),
            (forall k v, In (k, v) rest -> get all k = Some v) ->
            sum_values (map (fun key => mkStat key (or_zero (get all key)))
                            (map fst rest)) = sum_stats rest).
  { induction rest as [|[k v] rest IH]; intros all Hall; [reflexivity|].
    cbn [map fst sum_values fold_right value sum_stats snd].
    rewrite (Hall k v) by (left; reflexivity). cbn [or_zero].
    f_equal. apply IH. intros k' v' Hin. apply Hall. right. exact Hin. }
  intros Hnd. apply H.
  induction stats as [|[k0 v0] stats IH]; intros k v Hin; [contradiction|].
  cbn [map fst] in Hnd. inversion_clear Hnd as [|? ? Hout Hnd'].
  cbn [get]. destruct Hin as [[= -> ->]|Hin].
  - rewrite String.eqb_refl. reflexivity.
  - destruct (String.eqb_spec k k0) as [->|_]; [|exact (IH Hnd' k v Hin)].
    exfalso. apply Hout. change k0 with (fst (k0, v)). apply in_map. exact Hin.
Qed.

Lemma sum_of_ones (l : list ConflictEvent) :
  sum_of (fun _ => 1) l = Z.of_nat (length l).
Proof.
  induction l as [|e l IH]; [reflexivity|].
  cbn [sum_of fold_right length]. fold (sum_of (fun _ => 1) l). rewrite IH. lia.
Qed.

Lemma first_seen_snoc (l : list string) (k : string) :
  first_seen (l ++ [k]) = if in_dec string_dec k l then first_seen l
                          else first_seen l ++ [k].
Proof.
  unfold first_seen. rewrite rev_app_distr. cbn [rev app List.nodup].
  destruct (in_dec string_dec k (rev l)) as [Hin|Hout];
    destruct (in_dec string_dec k l) as [Hin'|Hout']; try reflexivity.
  - exfalso. apply Hout'. apply in_rev. exact Hin.
  - exfalso. apply Hout. apply in_rev in Hin'. exact Hin'.
Qed.

Lemma In_first_seen (l : list string) (k : string) :
  In k (first_seen l) <-> In k l.
Proof.
  unfold first_seen. rewrite <- in_rev, List.nodup_In, <- in_rev. reflexivity.
Qed.

Lemma tally_keys (weight : ConflictEvent -> Z) (events : list ConflictEvent) :
  map fst (tally weight events []) =
  first_seen (map (fun e => type_name (type e)) events).
Proof.
  induction events as [|e events IH] using rev_ind; [reflexivity|].
  unfold tally in *. rewrite fold_left_app. cbn [fold_left].
  rewrite keys_set, map_app. cbn [map]. rewrite first_seen_snoc.
  rewrite IH.
  destruct (in_dec string_dec (type_name (type e))
              (map (fun e0 => type_name (type e0)) events)) as [Hin|Hout].
  - destruct (get _ (type_name (type e))) eqn:E; [reflexivity|].
    apply get_None_keys in E. rewrite IH in E.
    exfalso. apply E, In_first_seen, Hin.
  - destruct (get _ (type_name (type e))) eqn:E; [|reflexivity].
    exfalso. apply Hout.
    apply In_first_seen. rewrite <- IH.
    destruct (in_dec string_dec (type_name (type e))
                (map fst (fold_left
                   (fun stats e0 =>
                      set stats (type_name (type e0))
                        (or_zero (get stats (type_name (type e0))) + weight e0))
                   events []))) as [H|H]; [exact H|].
    apply get_None_keys in H. congruence.
Qed.

Lemma NoDup_first_seen (l : list string) : List.NoDup (first_seen l).
Proof. unfold first_seen. apply List.NoDup_rev, List.NoDup_nodup. Qed.

(** The pie chart of event types: one slice per type that occurs, named by
    the type, in the order the types first occur; a slice holds the number
    of events of its type, which is at least one, and the slices add up to
    the number of events. *)
Theorem typeStats_counts (events : list ConflictEvent) :
  map name (typeStats events) =
    first_seen (map (fun e => type_name (type e)) events) /\
  List.NoDup (map name (typeStats events)) /\
  (forall key v,
     In (mkStat key v) (typeStats events) <->
     v = Z.of_nat (length (with_name key events)) /\ 0 < v) /\
  sum_values (typeStats events) = Z.of_nat (length events).
Proof.
  change (typeStats events) with (entries (tally (fun _ => 1) events [])).
  assert (Hkeys := tally_keys (fun _ => 1) events).
  assert (Hnd : List.NoDup (map fst (tally (fun _ => 1) events []))).
  { rewrite Hkeys. apply NoDup_first_seen. }
  rewrite names_entries. split; [exact Hkeys|]. split; [exact Hnd|]. split.
  - intros key v. rewrite In_entries, tally_get. cbn [get or_zero].
    destruct (with_name key events) as [|e l] eqn:E.
    + cbn [length]. split; [discriminate|]. intros (-> & H). lia.
    + rewrite sum_of_ones. cbn [length].
      split; [intros [= H]; lia|intros (H & _); f_equal; lia].
  - rewrite sum_entries by exact Hnd. rewrite tally_sum, sum_of_ones. reflexivity.
Qed.

Lemma typeStats_counts_witness :
  In (mkStat "Riot" 2)
     (typeStats [sample_event RIOT 0; sample_event BATTLE 3; sample_event RIOT 1]).
Proof.
  apply (proj1 (proj2 (proj2 (typeStats_counts
           [sample_event RIOT 0; sample_event BATTLE 3; sample_event RIOT 1])))).
  split; [reflexivity|lia].
Defined.







Lemma length_substring0 (m : nat) (s : string) :
  String.length (substring 0 m s) = Nat.min m (String.length s).
Proof.
  revert s. induction m as [|m IH]; intros s; [destruct s; reflexivity|].
  destruct s as [|c s]; [reflexivity|].
  cbn [substring String.length Nat.min]. rewrite IH. reflexivity.
Qed.

Lemma length_append (s t : string) :
  String.length (s ++ t)%string = (String.length s + String.length t)%nat.
Proof.
  induction s as [|c s IH]; [reflexivity|].
  cbn [String.append String.length]. rewrite IH. reflexivity.
Qed.

Lemma substring0_append (m : nat) (s t : string) :
  (m <= String.length s)%nat ->
  substring 0 m (substring 0 m s ++ t)%string = substring 0 m s.
Proof.
  revert s. induction m as [|m IH]; intros s Hm.
  - destruct s; destruct t; reflexivity.
  - destruct s as [|c s]; [cbn in Hm; lia|].
    cbn [substring String.append]. rewrite IH; [reflexivity|].
    cbn [String.length] in Hm. lia.
Qed.

(** The labels of the bar chart: a name of at most ten characters is shown
    as it is; a longer one is cut to its first ten characters followed by
    three dots, thirteen characters in all. *)
Theorem tickFormatter_bounds (val : string) :
  (String.length (tickFormatter val) <= 13)%nat /\
  ((String.length val <= 10)%nat -> tickFormatter val = val) /\
  ((10 < String.length val)%nat ->
   String.length (tickFormatter val) = 13%nat /\
   substring 0 10 (tickFormatter val) = substring 0 10 val /\
   substring 10 3 (tickFormatter val) = "..."%string).
Proof.
  unfold tickFormatter.
  destruct (Nat.ltb_spec 10 (String.length val)) as [Hlong|Hshort].
  - assert (Hlen : String.length (substring 0 10 val ++ "...")%string = 13%nat).
    { rewrite length_append, length_substring0. cbn [String.length]. lia. }
    split; [lia|]. split; [lia|]. intros _. split; [exact Hlen|]. split.
    + apply substring0_append. lia.
    + do 11 (destruct val as [|? val]; [cbn in Hlong; lia|]). reflexivity.
  - split; [lia|]. split; [reflexivity|]. lia.
Qed.

Lemma tickFormatter_bounds_witness :
  tickFormatter "Riot" = "Riot"%string /\
  String.length (tickFormatter "Violence against civilians") = 13%nat.
Proof.
  destruct (tickFormatter_bounds "Riot") as (_ & H1 & _).
  destruct (tickFormatter_bounds "Violence against civilians") as (_ & _ & H2).
  split; [apply H1; cbn; lia|apply H2; cbn; lia].
Defined.

(** A chart cell and a map marker of the same type have the same colour:
    every slice and every bar is named after the type of one of the events
    and filled with the colour [createCustomIcon] gives that type; the
    fallback colour of the charts is never used. *)
Theorem charts_match_markers (events : list ConflictEvent) :
  Forall (fun entry =>
            exists e, In e events /\ name entry = type_name (type e) /\
                      cell_fill entry = marker_color (type e) /\
                      cell_fill entry <> "#8884d8"%string)
         (typeStats events) /\
  Forall (fun entry =>
            exists e, In e events /\ name entry = type_name (type e) /\
                      cell_fill entry = marker_color (type e) /\
                      cell_fill entry <> "#8884d8"%string)
         (fatalityStats events).
Proof.
  assert (Hfill : forall t v,
            cell_fill (mkStat (type_name t) v) = marker_color t /\
            cell_fill (mkStat (type_name t) v) <> "#8884d8"%string).
  { intros t v. destruct t; split; try reflexivity; discriminate. }
  assert (Hentry : forall weight entry,
            In entry (entries (tally weight events [])) ->
            exists e, In e events /\ name entry = type_name (type e) /\
                      cell_fill entry = marker_color (type e) /\
                      cell_fill entry <> "#8884d8"%string).
  { intros weight [key v] Hin.
    assert (Hkey : In key (map fst (tally weight events []))).
    { rewrite <- names_entries. change key with (name (mkStat key v)).
      apply in_map. exact Hin. }
    rewrite tally_keys in Hkey. apply (proj1 (In_first_seen _ _)) in Hkey.
    apply in_map_iff in Hkey. destruct Hkey as (e & <- & He).
    exists e. split; [exact He|]. split; [reflexivity|]. apply Hfill. }
  split; apply List.Forall_forall; intros entry Hin.
  - exact (Hentry (fun _ => 1) entry Hin).
  - apply List.filter_In in Hin. exact (Hentry fatalities entry (proj1 Hin)).
Qed.

(** ** App and geminiService *)

Lemma trimStart_nil (s : JSString) :
  trimStart s = [] <-> forallb is_whitespace s = true.
Proof.
  induction s as [|c s IH]; cbn [trimStart forallb]; [tauto|].
  destruct (is_whitespace c); cbn [andb]; [exact IH|].
  split; discriminate.
Qed.

Lemma trimStart_keeps (s : JSString) :
  forallb is_whitespace s = false -> forallb is_whitespace (trimStart s) = false.
Proof.
  induction s as [|c s IH]; cbn [trimStart forallb]; [discriminate|].
  destruct (is_whitespace c) eqn:E; cbn [andb]; [exact IH|].
  intros _. cbn [forallb]. rewrite E. reflexivity.
Qed.

Lemma forallb_rev {A} (p : A -> bool) (l : list A) :
  forallb p (rev l) = forallb p l.
Proof.
  induction l as [|x l IH]; [reflexivity|].
  cbn [rev forallb]. rewrite forallb_app, IH. cbn [forallb].
  rewrite andb_true_r. apply andb_comm.
Qed.

Lemma trim_blank (s : JSString) :
  empty (trim s) = forallb is_whitespace s.
Proof.
  unfold trim, trimEnd.
  destruct (forallb is_whitespace s) eqn:E.
  - apply trimStart_nil in E. rewrite E. reflexivity.
  - apply trimStart_keeps in E. rewrite <- forallb_rev in E.
    destruct (trimStart (rev (trimStart s))) as [|c r] eqn:T.
    + apply trimStart_nil in T. congruence.
    + destruct (rev (c :: r)) eqn:R; [|reflexivity].
      apply (f_equal (@length N)) in R. rewrite length_rev in R. discriminate R.
Qed.

(** A search on a query made of white space only (spaces, tabs, line ends,
    the Unicode spaces [trim] removes) does nothing: the state is kept and
    the service is not asked.  Any other query is sent once, as typed (not
    trimmed). *)
Theorem handleSearch_blank
        (generateContent : JSString -> Result (option JSString))
        (JSON_parse : JSString -> Result AnalysisResult) (st : AppState) :
  (forallb is_whitespace (query st) = true ->
   handleSearch generateContent JSON_parse st = (st, [])) /\
  (forallb is_whitespace (query st) = false ->
   snd (handleSearch generateContent JSON_parse st) = [query st]).
Proof.
  unfold handleSearch. rewrite trim_blank.
  split; intros ->; reflexivity.
Qed.

Lemma handleSearch_blank_witness :
  handleSearch (fun _ => Ok None) (fun _ => Throw no_response)
    (mkAppState (js "  ") false None map_tab true None)
  = (mkAppState (js "  ") false None map_tab true None, []) /\
  snd (handleSearch (fun _ => Ok None) (fun _ => Throw no_response) initial_app)
  = [INITIAL_QUERY].
Proof.
  split.
  - apply (proj1 (handleSearch_blank (fun _ => Ok None)
                    (fun _ => Throw no_response)
                    (mkAppState (js "  ") false None map_tab true None))).
    reflexivity.
  - apply (proj2 (handleSearch_blank (fun _ => Ok None)
                    (fun _ => Throw no_response) initial_app)).
    reflexivity.
Defined.

(** A search that is sent always ends with the loading flag down and never
    touches the query, the tab or the sidebar.  When the service answers
    with a text that parses, the result replaces the data and no error is
    shown.  Every failure (the service call fails, the answer has no text,
    the text does not parse) shows the same fixed message, whatever the
    cause, and keeps the data of the previous search on screen. *)
Theorem handleSearch_settles
        (generateContent : JSString -> Result (option JSString))
        (JSON_parse : JSString -> Result AnalysisResult) (st : AppState) :
  forallb is_whitespace (query st) = false ->
  let st' := fst (handleSearch generateContent JSON_parse st) in
  let failed := error st' = Some search_failed /\ analysisData st' = analysisData st in
  isLoading st' = false /\
  query st' = query st /\
  activeTab st' = activeTab st /\
  isSidebarOpen st' = isSidebarOpen st /\
  (forall t result,
     generateContent (query st) = Ok (Some t) -> t <> [] ->
     JSON_parse t = Ok result ->
     error st' = None /\ analysisData st' = Some result) /\
  (forall e, generateContent (query st) = Throw e -> failed) /\
  (generateContent (query st) = Ok None -> failed) /\
  (generateContent (query st) = Ok (Some []) -> failed) /\
  (forall t e, generateContent (query st) = Ok (Some t) ->
               JSON_parse t = Throw e -> failed).
Proof.
  intros Hq. cbv zeta. unfold handleSearch, analyzeConflicts.
  rewrite trim_blank, Hq.
  destruct (generateContent (query st)) as [[t|]|e0]; cbn [bindR].
  - destruct t as [|c t]; cbn [empty].
    + repeat (split || intros); try discriminate; try congruence.
    + destruct (JSON_parse (c :: t)) as [result|e1] eqn:Hp; cbn [fst];
        repeat (split || intros); try discriminate;
        repeat match goal with
               | H : Ok (Some _) = Ok (Some _) |- _ => injection H as <-
               end;
        cbn [query isLoading error activeTab isSidebarOpen analysisData];
        try congruence.
  - repeat (split || intros); discriminate.
  - repeat (split || intros); discriminate.
Qed.

Lemma handleSearch_settles_witness :
  let st' := fst (handleSearch (fun _ => Ok (Some (js "{}")))
                    (fun _ => Ok (mkAnalysisResult "calm" [] stable []))
                    initial_app) in
  isLoading st' = false /\
  error st' = None /\
  analysisData st' = Some (mkAnalysisResult "calm" [] stable []).
Proof.
  destruct (handleSearch_settles (fun _ => Ok (Some (js "{}")))
              (fun _ => Ok (mkAnalysisResult "calm" [] stable []))
              initial_app eq_refl)
    as (H1 & _ & _ & _ & H2 & _).
  split; [exact H1|].
  apply (H2 (js "{}") (mkAnalysisResult "calm" [] stable []) eq_refl);
    [discriminate|reflexivity].
Defined.
